(** * libDaltonLens: colour-vision-deficiency simulation on RGBA8 buffers

    A shallow embedding of [libDaltonLens.c] (and of the two other states of
    the same file that the repository keeps), followed by the
    properties of the codec, of the two per-pixel transforms, of the
    dispatcher and of the buffer walk.

    Modelling conventions.
    - A C [float] is an IEEE 754 binary32 number and a C [double] a binary64
      number, both carried by [spec_float]; every arithmetic operator rounds
      once, to nearest even, in the type C gives the expression
      (FLT_EVAL_METHOD = 0, no contraction into fused multiply-add).
    - An [unsigned char] is a [Z] in [0, 256); a [size_t] is a [Z] reduced
      modulo 2^64 after each multiplication.
    - The image is a [list Z] of bytes; an access outside it, and the use of
      a null table pointer, are undefined behaviour in C and are reported by
      the model as a [Fault]. *)

From Stdlib Require Import ZArith List Bool Lia QArith Qabs.
From Stdlib Require Import Floats.SpecFloat.
From stdpp Require Import base list option.

Open Scope Z_scope.

(** ** Binary32 and binary64 arithmetic *)

Module F32.
Definition prec : Z := 24.
Definition emax : Z := 128.
Definition add := SFadd prec emax.
Definition sub := SFsub prec emax.
Definition mul := SFmul prec emax.
Definition div := SFdiv prec emax.
Definition ltb := SFltb.
Definition leb := SFleb.
Definition valid := valid_binary prec emax.
(** [(float) n] for an integer [n]. *)
Definition of_Z (n : Z) : spec_float := binary_normalize prec emax n 0 false.
Definition zero : spec_float := S754_zero false.
Definition one : spec_float := Eval vm_compute in of_Z 1.
Definition succ := SFsucc prec emax.
Definition pred := SFpred prec emax.
End F32.

Module F64.
Definition prec : Z := 53.
Definition emax : Z := 1024.
Definition add := SFadd prec emax.
Definition mul := SFmul prec emax.
Definition div := SFdiv prec emax.
Definition of_Z (n : Z) : spec_float := binary_normalize prec emax n 0 false.
(** The value of a decimal literal [digits * 10^-scale] of type [double],
    with an optional unary minus in front of it. *)
Definition lit (neg : bool) (digits scale : Z) : spec_float :=
  let q := div (of_Z digits) (of_Z (10 ^ scale)) in
  if neg then SFopp q else q.
End F64.

(** Conversions between the two formats. *)
Definition f32_of_f64 (x : spec_float) : spec_float :=
  match x with
  | S754_finite s m e => binary_round F32.prec F32.emax s m e
  | _ => x
  end.

Definition f64_of_f32 (x : spec_float) : spec_float :=
  match x with
  | S754_finite s m e => binary_round F64.prec F64.emax s m e
  | _ => x
  end.

(** A literal with the [f] suffix, and equally a [double] literal stored
    into a [float] object. *)
Definition flit (neg : bool) (digits scale : Z) : spec_float :=
  f32_of_f64 (F64.lit neg digits scale).

(** Truncation toward zero of a floating-point value. *)
Definition Ztrunc_float (x : spec_float) : Z :=
  match x with
  | S754_finite s m e =>
      cond_Zopp s (if 0 <=? e then Zpos m * 2 ^ e else Zpos m / 2 ^ (- e))
  | _ => 0
  end.

(** Conversion to [unsigned char]: the fractional part is discarded.  C
    leaves the conversion undefined when the truncated value is outside
    [0, 255]; the model keeps the low eight bits, and 0 for NaN and the
    infinities. *)
Definition uchar_of_float (x : spec_float) : Z := Ztrunc_float x mod 256.

(** ** The C library's [powf]

    [powf] is not part of the repository.  The transforms are parameterised
    by it; [Libm.powf_ref] is a reference implementation, used to run the
    model and to state how accurate a [powf] has to be. *)

Module Libm.
Definition P : Z := 128.
Definition scale : Z := Eval vm_compute in 2 ^ P.

(** [sum_k term_k / (2k+1)] with [term_{k+1} = term_k * t2], in fixed point
    with [P] fractional bits. *)
Fixpoint atanh_series (fuel : nat) (k term t2 acc : Z) : Z :=
  match fuel with
  | O => acc
  | S f => atanh_series f (k + 2) (Z.shiftr (term * t2) P) t2 (acc + term / k)
  end.

Definition ln2_fx : Z :=
  Eval vm_compute in 2 * atanh_series 48 1 (scale / 3) (scale / 9) 0.

(** [ln (m * 2^e)], from [ln f = 2 atanh ((f-1)/(f+1))] on [f] in [1,2). *)
Definition ln_fx (m : positive) (e : Z) : Z :=
  let d := Zpos (digits2_pos m) in
  let half := 2 ^ (d - 1) in
  let t := (Zpos m - half) * scale / (Zpos m + half) in
  (e + d - 1) * ln2_fx + 2 * atanh_series 48 1 t (Z.shiftr (t * t) P) 0.

Fixpoint exp_series (fuel : nat) (n term r acc : Z) : Z :=
  match fuel with
  | O => acc
  | S f => exp_series f (n + 1) (Z.shiftr (term * r) P / n) r (acc + term)
  end.

(** [exp z = E * 2^k] with [E] in [1,2). *)
Definition exp_fx (z : Z) : Z * Z :=
  let k := z / ln2_fx in
  let r := z - k * ln2_fx in
  (exp_series 44 1 scale r 0, k).

(** [x^y] rounded to binary32 for a positive finite base; the base zero and
    the exponent zero follow C; every other argument gives NaN (the program
    never passes a negative base with an integral exponent). *)
Definition powf_ref (x y : spec_float) : spec_float :=
  match x, y with
  | S754_nan, _ | _, S754_nan => S754_nan
  | S754_finite false mx ex, S754_finite sy my ey =>
      let z := cond_Zopp sy (Z.shiftl (Zpos my * ln_fx mx ex) ey) in
      let '(E, k) := exp_fx z in
      binary_normalize F32.prec F32.emax E (k - P) false
  | _, S754_zero _ => F32.one
  | S754_zero _, S754_finite false _ _ => F32.zero
  | S754_zero _, S754_finite true _ _ => S754_infinity false
  | _, _ => S754_nan
  end.

(** The values within two units in the last place of [r]. *)
Definition neighbours (r : spec_float) : list spec_float :=
  [F32.pred (F32.pred r); F32.pred r; r; F32.succ r;
   F32.succ (F32.succ r)].
End Libm.

(** ** Channel codec *)

Section Codec.
Variable powf : spec_float -> spec_float -> spec_float.

Definition c_255 : spec_float := Eval vm_compute in flit false 255 0.
Definition c_0_04045 : spec_float := Eval vm_compute in flit false 4045 5.
Definition c_12_92f : spec_float := Eval vm_compute in flit false 1292 2.
Definition c_0_055 : spec_float := Eval vm_compute in flit false 55 3.
Definition c_1_055 : spec_float := Eval vm_compute in flit false 1055 3.
Definition c_2_4 : spec_float := Eval vm_compute in flit false 24 1.
Definition c_0_0031308 : spec_float := Eval vm_compute in flit false 31308 7.
Definition c_0_5 : spec_float := Eval vm_compute in flit false 5 1.
Definition c_12_92d : spec_float := Eval vm_compute in F64.lit false 1292 2.
(** [1.f / 2.4f] *)
Definition c_inv_2_4 : spec_float := Eval vm_compute in F32.div F32.one c_2_4.

Definition linearRGB_from_sRGB (v : Z) : spec_float :=
  let fv := F32.div (F32.of_Z v) c_255 in
  if F32.ltb fv c_0_04045 then F32.div fv c_12_92f
  else powf (F32.div (F32.add fv c_0_055) c_1_055) c_2_4.

(** The two arithmetic return statements of [sRGB_from_linearRGB]: the
    first one is evaluated in [double] (the literal [12.92] has no suffix),
    the second one in [float]; [p] stands for [powf(v, 1.f / 2.4f)]. *)
Definition encode_linear_segment (v : spec_float) : Z :=
  uchar_of_float
    (F64.add (f64_of_f32 c_0_5)
       (F64.mul (F64.mul (f64_of_f32 v) c_12_92d) (f64_of_f32 c_255))).

Definition encode_power_segment (p : spec_float) : Z :=
  uchar_of_float
    (F32.add F32.zero
       (F32.mul c_255 (F32.sub (F32.mul p c_1_055) c_0_055))).

Definition sRGB_from_linearRGB (v : spec_float) : Z :=
  if F32.leb v F32.zero then 0
  else if F32.leb F32.one v then 255
  else if F32.ltb v c_0_0031308 then encode_linear_segment v
  else encode_power_segment (powf v c_inv_2_4).
End Codec.

(** ** Outcome of a call *)

Inductive fault := NullPointer | OutOfBounds.

Inductive result (A : Type) :=
  | Ok (a : A)
  | Fault (f : fault).
Arguments Ok {A} a.
Arguments Fault {A} f.

#[global] Instance result_bind : MBind result := fun A B k m =>
  match m with
  | Ok a => k a
  | Fault f => Fault f
  end.

(** ** Deficiency kinds *)

Inductive DLDeficiency :=
  | DLDeficiency_Protan
  | DLDeficiency_Deutan
  | DLDeficiency_Tritan.

(** The enumerators are the integers 0, 1, 2; the entry points receive the
    integer, as a C [enum] parameter can hold any [int]. *)
Definition enum_value (d : DLDeficiency) : Z :=
  match d with
  | DLDeficiency_Protan => 0
  | DLDeficiency_Deutan => 1
  | DLDeficiency_Tritan => 2
  end.

(** ** Parameter tables *)

(** [lit5 n] is the literal with five decimals of value [n * 10^-5]
    stored in a [float]; [neg_zero] is the literal [-0.00000]. *)
Definition lit5 (n : Z) : spec_float := flit (n <? 0) (Z.abs n) 5.
Definition neg_zero : spec_float := flit true 0 5.

(** [a[i]] on an array of floats. *)
Definition at_ (a : list spec_float) (i : nat) : spec_float := nth i a S754_nan.

Record DLBrettel1997Params := {
  rgbCvdFromRgb_1 : list spec_float;
  rgbCvdFromRgb_2 : list spec_float;
  separationPlaneNormalInRgb : list spec_float
}.

Definition brettel_protan_params : DLBrettel1997Params := Eval vm_compute in
  {| rgbCvdFromRgb_1 := map lit5
       [14980; 119548; -34528;
        10764; 84864; 4372;
        384; -540; 100156];
     rgbCvdFromRgb_2 := map lit5
       [14570; 116172; -30742;
        10816; 85291; 3892;
        386; -524; 100139];
     separationPlaneNormalInRgb := map lit5 [48; 393; -441] |}.

Definition brettel_deutan_params : DLBrettel1997Params := Eval vm_compute in
  {| rgbCvdFromRgb_1 := map lit5
       [36477; 86381; -22858;
        26294; 64245; 9462;
        -2006; 2728; 99278];
     rgbCvdFromRgb_2 := map lit5
       [37298; 88166; -25464;
        25954; 63506; 10540;
        -1980; 2784; 99196];
     separationPlaneNormalInRgb := map lit5 [-281; -611; 892] |}.

Definition brettel_tritan_params : DLBrettel1997Params := Eval vm_compute in
  {| rgbCvdFromRgb_1 := map lit5
       [101277; 13548; -14826;
        -1243; 86812; 14431;
        7589; 80500; 11911];
     rgbCvdFromRgb_2 := map lit5
       [93678; 18979; -12657;
        6154; 81526; 12320;
        -37562; 112767; 24796];
     separationPlaneNormalInRgb := map lit5 [3901; -2788; -1113] |}.

Definition dl_vienot_protan_rgbCvd_from_rgb : list spec_float :=
  Eval vm_compute in
  [lit5 11238; lit5 88762; lit5 0;
   lit5 11238; lit5 88762; neg_zero;
   lit5 401; lit5 (-401); lit5 100000].

Definition dl_vienot_deutan_rgbCvd_from_rgb : list spec_float :=
  Eval vm_compute in
  [lit5 29275; lit5 70725; lit5 0;
   lit5 29275; lit5 70725; neg_zero;
   lit5 (-2234); lit5 2234; lit5 100000].

Definition dl_vienot_tritan_rgbCvd_from_rgb : list spec_float :=
  Eval vm_compute in
  [lit5 100000; lit5 14461; lit5 (-14461);
   lit5 0; lit5 85924; lit5 14076;
   neg_zero; lit5 85924; lit5 14076].

(** ** Size arithmetic and the image *)

Definition size_max : Z := 2 ^ 64.
Definition size_mul (a b : Z) : Z := (a * b) mod size_max.

Definition load (img : list Z) (i : Z) : result Z :=
  match img !! Z.to_nat i with
  | Some v => Ok v
  | None => Fault OutOfBounds
  end.

Definition store (img : list Z) (i : Z) (v : Z) : list Z :=
  <[Z.to_nat i := v]> img.

(** ** The buffer walk

    Both transforms run the same two nested loops; [body] is what they do
    between reading the three colour bytes of a pixel and writing them
    back. *)

Section Walk.
Variable body : Z -> Z -> Z -> result (Z * Z * Z).

(** One iteration of the inner loop, on the pixel at byte offset [p]. *)
Definition pixel_step (img : list Z) (p : Z) : result (list Z) :=
  r ← load img (p + 0);
  g ← load img (p + 1);
  b ← load img (p + 2);
  out ← body r g b;
  let '(r', g', b') := out in
  Ok (store (store (store img (p + 0) r') (p + 1) g') (p + 2) b').

(** [for (col = 0; col < width*4; col += 4)], with [n] iterations left;
    [col] goes through 0, 4, 8, ... and the loop is entered
    [ceil (width4 / 4)] times. *)
Fixpoint cols_loop (n : nat) (rowPtr col : Z) (img : list Z)
  : result (list Z) :=
  match n with
  | O => Ok img
  | S n' =>
      img' ← pixel_step img (rowPtr + col);
      cols_loop n' rowPtr (col + 4) img'
  end.

(** [for (row = 0; row < height; ++row)], with [n] iterations left. *)
Fixpoint rows_loop (n : nat) (row width4 bytesPerRow : Z) (img : list Z)
  : result (list Z) :=
  match n with
  | O => Ok img
  | S n' =>
      let rowPtr := size_mul bytesPerRow row in
      img' ← cols_loop (Z.to_nat ((width4 + 3) / 4)) rowPtr 0 img;
      rows_loop n' (row + 1) width4 bytesPerRow img'
  end.

Definition walk (img : list Z) (width height bytesPerRow : Z)
  : result (list Z) :=
  let bytesPerRow :=
    if bytesPerRow =? 0 then size_mul width 4 else bytesPerRow in
  rows_loop (Z.to_nat height) 0 (size_mul width 4) bytesPerRow img.
End Walk.

(** ** The two transforms and the dispatcher *)

Section Simulate.
Variable powf : spec_float -> spec_float -> spec_float.

Abbreviation decode := (linearRGB_from_sRGB powf).
Abbreviation encode := (sRGB_from_linearRGB powf).

(** [m[k]*rgb[0] + m[k+1]*rgb[1] + m[k+2]*rgb[2]] *)
Definition row_dot (m : list spec_float) (k : nat) (r g b : spec_float)
  : spec_float :=
  F32.add (F32.add (F32.mul (at_ m k) r) (F32.mul (at_ m (k + 1)) g))
          (F32.mul (at_ m (k + 2)) b).

(** The [switch] on the deficiency: the pointer, initialised to [NULL],
    is left so ([None]) by any value that is not an enumerator. *)
Definition brettel_params (deficiency : Z) : option DLBrettel1997Params :=
  if deficiency =? 0 then Some brettel_protan_params
  else if deficiency =? 1 then Some brettel_deutan_params
  else if deficiency =? 2 then Some brettel_tritan_params
  else None.

(** [rgb[0]*n[0] + rgb[1]*n[1] + rgb[2]*n[2]] *)
Definition dotWithSepPlane (n : list spec_float) (r g b : spec_float)
  : spec_float :=
  F32.add (F32.add (F32.mul r (at_ n 0)) (F32.mul g (at_ n 1)))
          (F32.mul b (at_ n 2)).

(** [dotWithSepPlane >= 0 ? params->rgbCvdFromRgb_1 : params->rgbCvdFromRgb_2] *)
Definition brettel_plane (params : DLBrettel1997Params)
    (r g b : spec_float) : list spec_float :=
  if F32.leb (F32.of_Z 0)
       (dotWithSepPlane (separationPlaneNormalInRgb params) r g b)
  then rgbCvdFromRgb_1 params else rgbCvdFromRgb_2 params.

(** [rgb_cvd[i]*severity + rgb[i]*(1.f-severity)] *)
Definition brettel_blend (severity cvd orig : spec_float) : spec_float :=
  F32.add (F32.mul cvd severity)
          (F32.mul orig (F32.sub F32.one severity)).

(** The tail shared by the two transforms: multiply by the 3x3 matrix [m],
    blend each channel with the original one, encode. *)
Definition matrix_blend_encode
    (blend : spec_float -> spec_float -> spec_float -> spec_float)
    (m : list spec_float) (severity rgb0 rgb1 rgb2 : spec_float)
  : Z * Z * Z :=
  let cvd0 := row_dot m 0 rgb0 rgb1 rgb2 in
  let cvd1 := row_dot m 3 rgb0 rgb1 rgb2 in
  let cvd2 := row_dot m 6 rgb0 rgb1 rgb2 in
  (encode (blend severity cvd0 rgb0),
   encode (blend severity cvd1 rgb1),
   encode (blend severity cvd2 rgb2)).

(** The body of the inner loop: the three bytes are decoded first, the
    table is used next. *)
Definition brettel_body (params : option DLBrettel1997Params)
    (severity : spec_float) (r g b : Z) : result (Z * Z * Z) :=
  let rgb0 := decode r in
  let rgb1 := decode g in
  let rgb2 := decode b in
  match params with
  | None => Fault NullPointer
  | Some params =>
      let rgbCvdFromRgb := brettel_plane params rgb0 rgb1 rgb2 in
      Ok (matrix_blend_encode brettel_blend rgbCvdFromRgb severity
            rgb0 rgb1 rgb2)
  end.

Definition dl_simulate_cvd_brettel1997 (deficiency : Z)
    (severity : spec_float) (srgba_image : list Z)
    (width height bytesPerRow : Z) : result (list Z) :=
  walk (brettel_body (brettel_params deficiency) severity)
       srgba_image width height bytesPerRow.

Definition vienot_table (deficiency : Z) : option (list spec_float) :=
  if deficiency =? 0 then Some dl_vienot_protan_rgbCvd_from_rgb
  else if deficiency =? 1 then Some dl_vienot_deutan_rgbCvd_from_rgb
  else if deficiency =? 2 then Some dl_vienot_tritan_rgbCvd_from_rgb
  else None.

Definition c_0_999 : spec_float := Eval vm_compute in flit false 999 3.

(** [severity*rgb_cvd[i] + (1.f - severity)*rgb[i]] under
    [if (severity < 0.999f)] *)
Definition vienot_blend (severity cvd orig : spec_float) : spec_float :=
  if F32.ltb severity c_0_999
  then F32.add (F32.mul severity cvd)
               (F32.mul (F32.sub F32.one severity) orig)
  else cvd.

Definition vienot_body (rgbCvd_from_rgb : option (list spec_float))
    (severity : spec_float) (r g b : Z) : result (Z * Z * Z) :=
  let rgb0 := decode r in
  let rgb1 := decode g in
  let rgb2 := decode b in
  match rgbCvd_from_rgb with
  | None => Fault NullPointer
  | Some m =>
      Ok (matrix_blend_encode vienot_blend m severity rgb0 rgb1 rgb2)
  end.

Definition dl_simulate_cvd_vienot1999 (deficiency : Z)
    (severity : spec_float) (srgba_image : list Z)
    (width height bytesPerRow : Z) : result (list Z) :=
  walk (vienot_body (vienot_table deficiency) severity)
       srgba_image width height bytesPerRow.

Definition dl_simulate_cvd (deficiency : Z) (severity : spec_float)
    (srgba_image : list Z) (width height bytesPerRow : Z)
  : result (list Z) :=
  if deficiency =? enum_value DLDeficiency_Tritan
  then dl_simulate_cvd_brettel1997 deficiency severity srgba_image
         width height bytesPerRow
  else dl_simulate_cvd_vienot1999 deficiency severity srgba_image
         width height bytesPerRow.
End Simulate.

(** ** The other generations of the Brettel transform

    The repository keeps two other states of [libDaltonLens.c].  The codec,
    the buffer walk and the dispatcher are the same in the three files; they
    differ in the tables and, for one of them, in the per-pixel computation
    of the Brettel transform. *)

(** The combined-matrix transform with the other set of coefficients, the
    one the SVG port of the repository uses: the code of
    [dl_simulate_cvd_brettel1997] is the same, only the three tables
    differ. *)
Module SvgTables.
Definition brettel_protan_params : DLBrettel1997Params := Eval vm_compute in
  {| rgbCvdFromRgb_1 := map lit5
       [14510; 120165; -34675;
        10447; 85316; 4237;
        429; -603; 100174];
     rgbCvdFromRgb_2 := map lit5
       [14115; 116782; -30897;
        10495; 85730; 3776;
        431; -586; 100155];
     separationPlaneNormalInRgb := map lit5 [48; 416; -464] |}.

Definition brettel_deutan_params : DLBrettel1997Params := Eval vm_compute in
  {| rgbCvdFromRgb_1 := map lit5
       [36198; 86755; -22953;
        26099; 64512; 9389;
        -1975; 2686; 99289];
     rgbCvdFromRgb_2 := map lit5
       [37009; 88540; -25549;
        25767; 63782; 10451;
        -1950; 2741; 99209];
     separationPlaneNormalInRgb := map lit5 [-293; -645; 938] |}.

Definition brettel_tritan_params : DLBrettel1997Params := Eval vm_compute in
  {| rgbCvdFromRgb_1 := map lit5
       [101354; 14268; -15622;
        -1181; 87561; 13619;
        7707; 81208; 11085];
     rgbCvdFromRgb_2 := map lit5
       [93337; 19999; -13336;
        5809; 82565; 11626;
        -37923; 113825; 24098];
     separationPlaneNormalInRgb := map lit5 [3960; -2831; -1129] |}.

Definition brettel_params (deficiency : Z) : option DLBrettel1997Params :=
  if deficiency =? 0 then Some brettel_protan_params
  else if deficiency =? 1 then Some brettel_deutan_params
  else if deficiency =? 2 then Some brettel_tritan_params
  else None.

Definition dl_simulate_cvd_brettel1997
    (powf : spec_float -> spec_float -> spec_float) (deficiency : Z)
    (severity : spec_float) (srgba_image : list Z)
    (width height bytesPerRow : Z) : result (list Z) :=
  walk (brettel_body powf (brettel_params deficiency) severity)
       srgba_image width height bytesPerRow.
End SvgTables.

(** The file with an explicit trip through the LMS basis, one LMS coordinate
    being projected per half-plane. *)
Module ExplicitLMS.
Definition LMS_from_linearRGB : list spec_float := Eval vm_compute in
  map lit5 [17886; 43997; 3597;
            3380; 27515; 3621;
            31; 192; 1528].

Definition linearRGB_from_LMS : list spec_float := Eval vm_compute in
  map lit5 [800533; -1288195; 1168065;
            -97821; 526945; -1018300;
            -4017; -39885; 6648079].

Record DLBrettel1997Params := {
  lmsElementToProject : nat;
  projectionOnPlane1 : list spec_float;
  projectionOnPlane2 : list spec_float;
  separationPlaneNormal : list spec_float
}.

Definition brettel_protan_params : DLBrettel1997Params := Eval vm_compute in
  {| lmsElementToProject := 0;
     projectionOnPlane1 := map lit5 [0; 218394; -565554];
     projectionOnPlane2 := map lit5 [0; 216614; -530455];
     separationPlaneNormal := map lit5 [0; 1751; -34516] |}.

Definition brettel_deutan_params : DLBrettel1997Params := Eval vm_compute in
  {| lmsElementToProject := 1;
     projectionOnPlane1 := map lit5 [46165; 0; 244885];
     projectionOnPlane2 := map lit5 [45789; 0; 258960];
     separationPlaneNormal := map lit5 [-1751; 0; 65480] |}.

Definition brettel_tritan_params : DLBrettel1997Params := Eval vm_compute in
  {| lmsElementToProject := 2;
     projectionOnPlane1 := map lit5 [-213; 5477; 0];
     projectionOnPlane2 := map lit5 [-6195; 16826; 0];
     separationPlaneNormal := map lit5 [34516; -65480; 0] |}.

Definition brettel_params (deficiency : Z) : option DLBrettel1997Params :=
  if deficiency =? 0 then Some brettel_protan_params
  else if deficiency =? 1 then Some brettel_deutan_params
  else if deficiency =? 2 then Some brettel_tritan_params
  else None.

Section Transform.
Variable powf : spec_float -> spec_float -> spec_float.

Definition brettel_body (params : option DLBrettel1997Params)
    (severity : spec_float) (r g b : Z) : result (Z * Z * Z) :=
  let rgb0 := linearRGB_from_sRGB powf r in
  let rgb1 := linearRGB_from_sRGB powf g in
  let rgb2 := linearRGB_from_sRGB powf b in
  let lms :=
    [row_dot LMS_from_linearRGB 0 rgb0 rgb1 rgb2;
     row_dot LMS_from_linearRGB 3 rgb0 rgb1 rgb2;
     row_dot LMS_from_linearRGB 6 rgb0 rgb1 rgb2] in
  match params with
  | None => Fault NullPointer
  | Some params =>
      let n := separationPlaneNormal params in
      let dotWithSepPlane :=
        F32.add (F32.add (F32.mul (at_ lms 0) (at_ n 0))
                         (F32.mul (at_ lms 1) (at_ n 1)))
                (F32.mul (at_ lms 2) (at_ n 2)) in
      let projectionOnPlane :=
        if F32.leb (F32.of_Z 0) dotWithSepPlane
        then projectionOnPlane1 params else projectionOnPlane2 params in
      let projected_element :=
        row_dot projectionOnPlane 0 (at_ lms 0) (at_ lms 1) (at_ lms 2) in
      let k := lmsElementToProject params in
      let lms :=
        <[k := brettel_blend severity projected_element (at_ lms k)]>
          lms in
      let l := at_ lms 0 in
      let m := at_ lms 1 in
      let s := at_ lms 2 in
      Ok (sRGB_from_linearRGB powf (row_dot linearRGB_from_LMS 0 l m s),
          sRGB_from_linearRGB powf (row_dot linearRGB_from_LMS 3 l m s),
          sRGB_from_linearRGB powf (row_dot linearRGB_from_LMS 6 l m s))
  end.

Definition dl_simulate_cvd_brettel1997 (deficiency : Z)
    (severity : spec_float) (srgba_image : list Z)
    (width height bytesPerRow : Z) : result (list Z) :=
  walk (brettel_body (brettel_params deficiency) severity)
       srgba_image width height bytesPerRow.
End Transform.
End ExplicitLMS.

(** ** Vocabulary of the statements *)

(** *** Floating-point values *)


Definition finite_or_zero (x : spec_float) : bool :=
  match x with
  | S754_zero _ | S754_finite _ _ _ => true
  | _ => false
  end.

(** [x] is [+0] or a positive number. *)
Definition nonneg (x : spec_float) : bool :=
  match x with
  | S754_zero false | S754_finite false _ _ => true
  | _ => false
  end.

Definition positive_finite (x : spec_float) : bool :=
  match x with
  | S754_finite false _ _ => true
  | _ => false
  end.

(** [bounded_by E x]: [x] is a zero, or a binary32 number in canonical form
    whose magnitude is below [2^E]. *)
Definition bounded_by (E : Z) (x : spec_float) : bool :=
  match x with
  | S754_zero _ => true
  | S754_finite _ m e => bounded 24 128 m e && (e + 24 <=? E)
  | _ => false
  end.

(** All nine entries of a matrix are below 2 in magnitude. *)
Definition matrix_ok (m : list spec_float) : bool :=
  forallb (fun k => bounded_by 1 (at_ m k)) (seq 0 9).

(** *** Accuracy asked of [powf]

    On a positive finite base and the two exponents the codec uses, the
    result is within two units in the last place of the reference value
    (itself the correctly rounded power, up to the [2^-100] or so of its
    fixed-point evaluation): any [powf] whose error stays below two units in
    the last place qualifies. *)
Definition powf_accurate
    (powf : spec_float -> spec_float -> spec_float) : Prop :=
  forall x y,
    positive_finite x = true -> y = c_2_4 \/ y = c_inv_2_4 ->
    In (powf x y) (Libm.neighbours (Libm.powf_ref x y)).

(** The values [linearRGB_from_sRGB v] can take with such a [powf]. *)
Definition decode_arg (v : Z) : spec_float :=
  F32.div (F32.add (F32.div (F32.of_Z v) c_255) c_0_055) c_1_055.

Definition decode_candidates (v : Z) : list spec_float :=
  let fv := F32.div (F32.of_Z v) c_255 in
  if F32.ltb fv c_0_04045 then [F32.div fv c_12_92f]
  else Libm.neighbours (Libm.powf_ref (decode_arg v) c_2_4).

(** The values [sRGB_from_linearRGB x] can take with such a [powf]. *)
Definition encode_candidates (x : spec_float) : list Z :=
  if F32.leb x F32.zero then [0]
  else if F32.leb F32.one x then [255]
  else if F32.ltb x c_0_0031308 then [encode_linear_segment x]
  else map encode_power_segment
         (Libm.neighbours (Libm.powf_ref x c_inv_2_4)).

(** What is checked, by evaluation, for one byte value [v]: the argument
    handed to [powf] is positive and finite; every candidate [x] of the
    decoding is non-negative, canonical and below 2; every candidate of the
    encoding of [x] is [v - 1] or [v]. *)
Definition byte_check (v : Z) : bool :=
  (F32.ltb (F32.div (F32.of_Z v) c_255) c_0_04045
   || positive_finite (decode_arg v))
  && forallb
       (fun x =>
          nonneg x && bounded_by 1 x
          && (F32.leb x F32.zero || F32.leb F32.one x
              || F32.ltb x c_0_0031308 || positive_finite x)
          && forallb (fun w => (v - 1 <=? w) && (w <=? v))
               (encode_candidates x))
       (decode_candidates v).

(** The second return statement of [sRGB_from_linearRGB] as the
    specification words it, with [0.5f] added before the truncation. *)
Definition encode_power_segment_rounded (p : spec_float) : Z :=
  uchar_of_float
    (F32.add c_0_5 (F32.mul c_255 (F32.sub (F32.mul p c_1_055) c_0_055))).

(** *** Buffers *)

Definition byte_at (img : list Z) (i : Z) : Z :=
  default 0 (img !! Z.to_nat i).

Definition pixel_at (img : list Z) (p : Z) : Z * Z * Z :=
  (byte_at img p, byte_at img (p + 1), byte_at img (p + 2)).

(** Channel [c] (0, 1 or 2) of a colour. *)
Definition chan (c : Z) (px : Z * Z * Z) : Z :=
  let '(r, g, b) := px in
  if c =? 0 then r else if c =? 1 then g else b.

(** [f] applied to the three colour bytes found at offset [p]. *)
Definition transformed (f : Z -> Z -> Z -> Z * Z * Z) (img : list Z) (p : Z)
  : Z * Z * Z :=
  let '(r, g, b) := pixel_at img p in f r g b.

Definition bytes_ok (img : list Z) : Prop :=
  Forall (fun v => 0 <= v < 256) img.

(** The row stride in effect. *)
Definition stride_of (width bytesPerRow : Z) : Z :=
  if bytesPerRow =? 0 then 4 * width else bytesPerRow.

(** What the caller owes: rows do not overlap and the [height] rows of
    [width] pixels lie inside the buffer, itself smaller than [SIZE_MAX]. *)
Definition geometry_ok (img : list Z) (width height bytesPerRow : Z) : Prop :=
  0 <= width /\ 0 <= height
  /\ 4 * width <= stride_of width bytesPerRow
  /\ Z.of_nat (length img) < size_max
  /\ (0 < width -> 0 < height ->
      stride_of width bytesPerRow * (height - 1) + 4 * width
      <= Z.of_nat (length img)).

(** [img'] is [img] where the three colour bytes of each of the
    [width * height] pixels have been replaced by [f] of their former values,
    and nothing else has changed. *)
Definition walked (f : Z -> Z -> Z -> Z * Z * Z) (img : list Z)
    (width height stride : Z) (img' : list Z) : Prop :=
  length img' = length img
  /\ (forall row k c,
        0 <= row < height -> 0 <= k < width -> 0 <= c < 3 ->
        byte_at img' (stride * row + 4 * k + c)
        = chan c (transformed f img (stride * row + 4 * k)))
  /\ (forall j, 0 <= j ->
        (forall row k c,
           0 <= row < height -> 0 <= k < width -> 0 <= c < 3 ->
           j <> stride * row + 4 * k + c) ->
        byte_at img' j = byte_at img j).

(** One iteration of the inner loop on an outcome: nothing more is done
    after a fault. *)
Definition visit (body : Z -> Z -> Z -> result (Z * Z * Z))
    (acc : result (list Z)) (p : Z) : result (list Z) :=
  img ← acc; pixel_step body img p.

(** The byte offsets of the pixels, in row-major order: row after row, and
    from left to right in a row. *)
Definition pixel_offsets (width height stride : Z) : list Z :=
  row ← seqZ 0 height; (fun k => stride * row + 4 * k) <$> seqZ 0 width.

(** *** Entry points *)

Inductive entry_point :=
  | Entry_simulate
  | Entry_brettel1997
  | Entry_vienot1999.

Definition run (powf : spec_float -> spec_float -> spec_float)
    (ep : entry_point)
  : Z -> spec_float -> list Z -> Z -> Z -> Z -> result (list Z) :=
  match ep with
  | Entry_simulate => dl_simulate_cvd powf
  | Entry_brettel1997 => dl_simulate_cvd_brettel1997 powf
  | Entry_vienot1999 => dl_simulate_cvd_vienot1999 powf
  end.

(** Which transform an entry point runs for a deficiency. *)
Definition uses_brettel (ep : entry_point) (d : DLDeficiency) : bool :=
  match ep, d with
  | Entry_brettel1997, _ => true
  | Entry_vienot1999, _ => false
  | Entry_simulate, DLDeficiency_Tritan => true
  | Entry_simulate, _ => false
  end.

Definition brettel_table (d : DLDeficiency) : DLBrettel1997Params :=
  match d with
  | DLDeficiency_Protan => brettel_protan_params
  | DLDeficiency_Deutan => brettel_deutan_params
  | DLDeficiency_Tritan => brettel_tritan_params
  end.

Definition vienot_matrix (d : DLDeficiency) : list spec_float :=
  match d with
  | DLDeficiency_Protan => dl_vienot_protan_rgbCvd_from_rgb
  | DLDeficiency_Deutan => dl_vienot_deutan_rgbCvd_from_rgb
  | DLDeficiency_Tritan => dl_vienot_tritan_rgbCvd_from_rgb
  end.

(** The per-pixel body an entry point runs. *)
Definition entry_body (powf : spec_float -> spec_float -> spec_float)
    (ep : entry_point) (d : DLDeficiency) (severity : spec_float)
  : Z -> Z -> Z -> result (Z * Z * Z) :=
  if uses_brettel ep d
  then brettel_body powf (brettel_params (enum_value d)) severity
  else vienot_body powf (vienot_table (enum_value d)) severity.

(** The matrix applied to a pixel of decoded colour [rgb0, rgb1, rgb2]. *)
Definition matrix_for (ep : entry_point) (d : DLDeficiency)
    (rgb0 rgb1 rgb2 : spec_float) : list spec_float :=
  if uses_brettel ep d then brettel_plane (brettel_table d) rgb0 rgb1 rgb2
  else vienot_matrix d.

(** What an entry point makes of the three colour bytes of a pixel. *)
Definition pixel_fun (powf : spec_float -> spec_float -> spec_float)
    (ep : entry_point) (d : DLDeficiency) (severity : spec_float)
    (r g b : Z) : Z * Z * Z :=
  let rgb0 := linearRGB_from_sRGB powf r in
  let rgb1 := linearRGB_from_sRGB powf g in
  let rgb2 := linearRGB_from_sRGB powf b in
  matrix_blend_encode powf
    (if uses_brettel ep d then brettel_blend else vienot_blend)
    (matrix_for ep d rgb0 rgb1 rgb2) severity rgb0 rgb1 rgb2.

(** The full simulated colour: the matrix product, encoded, with no
    contribution of the original colour. *)
Definition full_colour (powf : spec_float -> spec_float -> spec_float)
    (ep : entry_point) (d : DLDeficiency) (r g b : Z) : Z * Z * Z :=
  let rgb0 := linearRGB_from_sRGB powf r in
  let rgb1 := linearRGB_from_sRGB powf g in
  let rgb2 := linearRGB_from_sRGB powf b in
  let m := matrix_for ep d rgb0 rgb1 rgb2 in
  (sRGB_from_linearRGB powf (row_dot m 0 rgb0 rgb1 rgb2),
   sRGB_from_linearRGB powf (row_dot m 3 rgb0 rgb1 rgb2),
   sRGB_from_linearRGB powf (row_dot m 6 rgb0 rgb1 rgb2)).

(** The round trip of the three colour bytes through the codec. *)
Definition round_trip (powf : spec_float -> spec_float -> spec_float)
    (r g b : Z) : Z * Z * Z :=
  (sRGB_from_linearRGB powf (linearRGB_from_sRGB powf r),
   sRGB_from_linearRGB powf (linearRGB_from_sRGB powf g),
   sRGB_from_linearRGB powf (linearRGB_from_sRGB powf b)).

(** [res] lies strictly between [orig] and [full], or the three are equal. *)
Definition strictly_between_or_all_equal (orig full res : Z) : bool :=
  ((orig <? res) && (res <? full)) || ((full <? res) && (res <? orig))
  || ((orig =? full) && (res =? orig)).

(** The number of iterations of the two loops of the walk. *)
Definition row_count (height : Z) : nat := Z.to_nat height.
Definition col_count (width : Z) : nat :=
  Z.to_nat ((size_mul width 4 + 3) / 4).

(** The comparison the blend-consistency property asks for, on byte [i] of a
    one-pixel image: the result at severity [s2] against the original byte
    and the result at severity 1.0. *)
Definition blend_claim_at (powf : spec_float -> spec_float -> spec_float)
    (ep : entry_point) (deficiency : Z) (s2 : spec_float) (img : list Z)
    (i : Z) : option bool :=
  match run powf ep deficiency s2 img 1 1 0,
        run powf ep deficiency F32.one img 1 1 0 with
  | Ok res, Ok full =>
      Some (strictly_between_or_all_equal
              (byte_at img i) (byte_at full i) (byte_at res i))
  | _, _ => None
  end.

(** *** The Brettel tables in exact arithmetic *)

(** The rational number a finite float stands for (0 for the others). *)
Definition Q_of_float (x : spec_float) : Q :=
  match x with
  | S754_finite s m e =>
      (inject_Z (cond_Zopp s (Zpos m)) * Qpower (2 # 1) e)%Q
  | _ => 0%Q
  end.

Definition qat (a : list Q) (i : nat) : Q := nth i a 0%Q.

(** Product of two 3x3 matrices stored row by row. *)
Definition qmat_mul (a b : list Q) : list Q :=
  map (fun ij : nat =>
         let i := (ij / 3)%nat in
         let j := (ij mod 3)%nat in
         (qat a (3 * i) * qat b j + qat a (3 * i + 1) * qat b (3 + j)
          + qat a (3 * i + 2) * qat b (6 + j))%Q)
      (seq 0 9).

(** The identity with row [k] replaced by the row vector [p]. *)
Definition qprojection (k : nat) (p : list Q) : list Q :=
  map (fun ij : nat =>
         let i := (ij / 3)%nat in
         let j := (ij mod 3)%nat in
         if (i =? k)%nat then qat p j
         else if (i =? j)%nat then 1%Q else 0%Q)
      (seq 0 9).

(** Product of a row vector by a 3x3 matrix. *)
Definition qrow_mul (n : list Q) (a : list Q) : list Q :=
  map (fun j : nat =>
         (qat n 0 * qat a j + qat n 1 * qat a (3 + j)
          + qat n 2 * qat a (6 + j))%Q)
      (seq 0 3).

Definition qclose (tol : Q) (a b : list Q) : bool :=
  (length a =? length b)%nat
  && forallb (fun i => Qle_bool (Qabs (qat a i - qat b i)) tol)
       (seq 0 (length a)).

Definition svg_table (d : DLDeficiency) : DLBrettel1997Params :=
  match d with
  | DLDeficiency_Protan => SvgTables.brettel_protan_params
  | DLDeficiency_Deutan => SvgTables.brettel_deutan_params
  | DLDeficiency_Tritan => SvgTables.brettel_tritan_params
  end.

Definition lms_table (d : DLDeficiency) : ExplicitLMS.DLBrettel1997Params :=
  match d with
  | DLDeficiency_Protan => ExplicitLMS.brettel_protan_params
  | DLDeficiency_Deutan => ExplicitLMS.brettel_deutan_params
  | DLDeficiency_Tritan => ExplicitLMS.brettel_tritan_params
  end.

(** [rgbFromLms . projection . lmsFromRgb] in exact arithmetic. *)
Definition lms_pipeline (k : nat) (projection : list spec_float) : list Q :=
  qmat_mul (map Q_of_float ExplicitLMS.linearRGB_from_LMS)
    (qmat_mul (qprojection k (map Q_of_float projection))
       (map Q_of_float ExplicitLMS.LMS_from_linearRGB)).

Definition tables_agree (d : DLDeficiency) : bool :=
  let l := lms_table d in
  let c := svg_table d in
  let k := ExplicitLMS.lmsElementToProject l in
  qclose (1 # 4000) (lms_pipeline k (ExplicitLMS.projectionOnPlane1 l))
    (map Q_of_float (rgbCvdFromRgb_1 c))
  && qclose (1 # 4000) (lms_pipeline k (ExplicitLMS.projectionOnPlane2 l))
       (map Q_of_float (rgbCvdFromRgb_2 c))
  && qclose (1 # 100000)
       (qrow_mul (map Q_of_float (ExplicitLMS.separationPlaneNormal l))
          (map Q_of_float ExplicitLMS.LMS_from_linearRGB))
       (map Q_of_float (separationPlaneNormalInRgb c)).

(** * More of the code *)

(** ** The Vienot transform of the two other states of the file

    The tables, the transform and the dispatcher are the same text in both
    of them; the coefficients are those of the SVG filters. *)
Module OtherStates.
Definition dl_vienot_protan_rgbCvd_from_rgb : list spec_float :=
  Eval vm_compute in
  [lit5 10889; lit5 89111; neg_zero;
   lit5 10889; lit5 89111; lit5 0;
   lit5 447; lit5 (-447); lit5 100000].

Definition dl_vienot_deutan_rgbCvd_from_rgb : list spec_float :=
  Eval vm_compute in
  [lit5 29031; lit5 70969; neg_zero;
   lit5 29031; lit5 70969; neg_zero;
   lit5 (-2197); lit5 2197; lit5 100000].

Definition dl_vienot_tritan_rgbCvd_from_rgb : list spec_float :=
  Eval vm_compute in
  [lit5 100000; lit5 15236; lit5 (-15236);
   lit5 0; lit5 86717; lit5 13283;
   neg_zero; lit5 86717; lit5 13283].

Definition vienot_table (deficiency : Z) : option (list spec_float) :=
  if deficiency =? 0 then Some dl_vienot_protan_rgbCvd_from_rgb
  else if deficiency =? 1 then Some dl_vienot_deutan_rgbCvd_from_rgb
  else if deficiency =? 2 then Some dl_vienot_tritan_rgbCvd_from_rgb
  else None.

Definition dl_simulate_cvd_vienot1999
    (powf : spec_float -> spec_float -> spec_float) (deficiency : Z)
    (severity : spec_float) (srgba_image : list Z)
    (width height bytesPerRow : Z) : result (list Z) :=
  walk (vienot_body powf (vienot_table deficiency) severity)
       srgba_image width height bytesPerRow.

(** The dispatcher, given the Brettel entry point of its file. *)
Definition dl_simulate_cvd
    (dl_simulate_cvd_brettel1997 :
       Z -> spec_float -> list Z -> Z -> Z -> Z -> result (list Z))
    (powf : spec_float -> spec_float -> spec_float) (deficiency : Z)
    (severity : spec_float) (srgba_image : list Z)
    (width height bytesPerRow : Z) : result (list Z) :=
  if deficiency =? enum_value DLDeficiency_Tritan
  then dl_simulate_cvd_brettel1997 deficiency severity srgba_image
         width height bytesPerRow
  else dl_simulate_cvd_vienot1999 powf deficiency severity srgba_image
         width height bytesPerRow.
End OtherStates.

(** ** The test program

    [compare_images] loads the expected image with [stbi_load] and compares
    it with the buffer it is given; each test copies the input image to a
    scratch buffer, runs a transform on it in place and compares the
    outcome.  What [stbi_load] returns is an argument here; a file that
    cannot be read is the empty image of size 0 x 0.  The messages printed,
    the timing and the PNG file written on a mismatch are left out: nothing
    reads them back. *)
Module TestSimulation.
(** What a call comes to: the [int] returned, or undefined behaviour (an
    [int] product that overflows, a read outside a buffer). *)
Inductive outcome (A : Type) :=
  | Returns (a : A)
  | Undefined.
Arguments Returns {A} a.
Arguments Undefined {A}.

#[global] Instance outcome_bind : MBind outcome := fun A B k m =>
  match m with
  | Returns a => k a
  | Undefined => Undefined
  end.

Definition int_min : Z := - 2 ^ 31.
Definition int_max : Z := 2 ^ 31 - 1.

Definition int_mul (a b : Z) : outcome Z :=
  let p := a * b in
  if (int_min <=? p) && (p <=? int_max) then Returns p else Undefined.

Definition read (img : list Z) (i : Z) : outcome Z :=
  if i <? 0 then Undefined
  else match img !! Z.to_nat i with
       | Some v => Returns v
       | None => Undefined
       end.

(** What [stbi_load] hands back. *)
Record loaded := {
  pixels : list Z;
  loaded_width : Z;
  loaded_height : Z
}.

(** [for (int c = 0; c < width*4; ++c)], with [n] iterations left; the
    result tells whether a difference above 1 was met. *)
Fixpoint compare_row (n : nat) (c : Z) (inputRowPtr gtRowPtr : Z)
    (inputImage gtImage : list Z) : outcome bool :=
  match n with
  | O => Returns false
  | S n' =>
      a ← read inputImage (inputRowPtr + c);
      b ← read gtImage (gtRowPtr + c);
      let diff := Z.abs (a - b) in
      if 1 <? diff then Returns true
      else compare_row n' (c + 1) inputRowPtr gtRowPtr inputImage gtImage
  end.

(** [for (int r = 0; r < height; ++r)], with [n] iterations left. *)
Fixpoint compare_rows (n : nat) (r : Z) (width : Z)
    (inputImage gtImage : list Z) : outcome Z :=
  match n with
  | O => Returns 0
  | S n' =>
      inputRowPtr ← int_mul width r;
      gtRowPtr ← int_mul width r;
      width4 ← int_mul width 4;
      differs ← compare_row (Z.to_nat width4) 0 inputRowPtr gtRowPtr
                  inputImage gtImage;
      if (differs : bool) then Returns 2
      else compare_rows n' (r + 1) width inputImage gtImage
  end.

Definition compare_images (gt : loaded) (inputImage : list Z)
    (width height : Z) : outcome Z :=
  if negb (loaded_width gt =? width) || negb (loaded_height gt =? height)
  then Returns 1
  else compare_rows (Z.to_nat height) 0 width inputImage (pixels gt).

(** The buffers of the test program: the decoded input image and a
    scratch copy of the same size. *)
Record Context := {
  inputBuffer : list Z;
  tmpImageBuffer : list Z;
  width : Z;
  height : Z
}.

(** [memcpy (dst, src, n)], on the contents of the two buffers. *)
Definition memcpy (dst src : list Z) (n : Z) : outcome (list Z) :=
  if (0 <=? n) && (n <=? Z.of_nat (length dst))
     && (n <=? Z.of_nat (length src))
  then Returns (take (Z.to_nat n) src ++ drop (Z.to_nat n) dst)
  else Undefined.

(** An [int] passed for a [size_t] parameter. *)
Definition size_of_int (x : Z) : Z := x mod size_max.

(** A fault of the library is undefined behaviour of the program. *)
Definition of_result {A : Type} (r : result A) : outcome A :=
  match r with
  | Ok a => Returns a
  | Fault _ => Undefined
  end.

(** The expected images, by file. *)
Inductive ground_truth :=
  | vienot1999_protan_1_0
  | vienot1999_deutan_1_0
  | vienot1999_tritan_1_0
  | vienot1999_protan_0_55
  | vienot1999_deutan_0_55
  | vienot1999_tritan_0_55
  | brettel1997_protan_wn_1_0
  | brettel1997_deutan_wn_1_0
  | brettel1997_tritan_wn_1_0
  | brettel1997_protan_wn_0_55
  | brettel1997_deutan_wn_0_55
  | brettel1997_tritan_wn_0_55.

(** The severities [1.0] and [0.55], converted to [float] at the call. *)
Definition severity_1_0 : spec_float := Eval vm_compute in flit false 10 1.
Definition severity_0_55 : spec_float := Eval vm_compute in flit false 55 2.

Section Tests.
Variable stbi_load : ground_truth -> loaded.

(** One block of a test: copy the input, simulate in place, compare;
    the comparison is added to the count, the scratch buffer is left
    as the simulation made it. *)
Definition simulate_and_compare
    (simulate : Z -> spec_float -> list Z -> Z -> Z -> Z
                -> result (list Z))
    (deficiency : DLDeficiency) (severity : spec_float)
    (gt_name : ground_truth) (context : Context)
    (state : Z * list Z) : outcome (Z * list Z) :=
  let '(cumulatedComparison, tmp) := state in
  let w := width context in
  let h := height context in
  wh ← int_mul w h;
  n ← int_mul wh 4;
  tmp ← memcpy tmp (inputBuffer context) n;
  tmp ← of_result
          (simulate (enum_value deficiency) severity tmp
             (size_of_int w) (size_of_int h) 0);
  c ← compare_images (stbi_load gt_name) tmp w h;
  Returns (cumulatedComparison + c, tmp).

Variable powf : spec_float -> spec_float -> spec_float.

Definition test_Vienot1999 (context : Context) : outcome (Z * list Z) :=
  let v := dl_simulate_cvd_vienot1999 powf in
  s ← simulate_and_compare v DLDeficiency_Protan severity_1_0
        vienot1999_protan_1_0 context (0, tmpImageBuffer context);
  s ← simulate_and_compare v DLDeficiency_Deutan severity_1_0
        vienot1999_deutan_1_0 context s;
  s ← simulate_and_compare v DLDeficiency_Tritan severity_1_0
        vienot1999_tritan_1_0 context s;
  s ← simulate_and_compare v DLDeficiency_Protan severity_0_55
        vienot1999_protan_0_55 context s;
  s ← simulate_and_compare v DLDeficiency_Deutan severity_0_55
        vienot1999_deutan_0_55 context s;
  simulate_and_compare v DLDeficiency_Tritan severity_0_55
    vienot1999_tritan_0_55 context s.

Definition test_Brettel1997 (context : Context) : outcome (Z * list Z) :=
  let b := dl_simulate_cvd_brettel1997 powf in
  s ← simulate_and_compare b DLDeficiency_Protan severity_1_0
        brettel1997_protan_wn_1_0 context (0, tmpImageBuffer context);
  s ← simulate_and_compare b DLDeficiency_Deutan severity_1_0
        brettel1997_deutan_wn_1_0 context s;
  s ← simulate_and_compare b DLDeficiency_Tritan severity_1_0
        brettel1997_tritan_wn_1_0 context s;
  s ← simulate_and_compare b DLDeficiency_Protan severity_0_55
        brettel1997_protan_wn_0_55 context s;
  s ← simulate_and_compare b DLDeficiency_Deutan severity_0_55
        brettel1997_deutan_wn_0_55 context s;
  simulate_and_compare b DLDeficiency_Tritan severity_0_55
    brettel1997_tritan_wn_0_55 context s.

Definition test_automaticDispatch (context : Context)
  : outcome (Z * list Z) :=
  let a := dl_simulate_cvd powf in
  s ← simulate_and_compare a DLDeficiency_Protan severity_1_0
        vienot1999_protan_1_0 context (0, tmpImageBuffer context);
  s ← simulate_and_compare a DLDeficiency_Deutan severity_1_0
        vienot1999_deutan_1_0 context s;
  simulate_and_compare a DLDeficiency_Tritan severity_1_0
    brettel1997_tritan_wn_1_0 context s.
End Tests.
End TestSimulation.

(** ** Vocabulary of the further statements *)

(** *** The codec *)

(** The bytes on the linear segment of the decoder are 0 to 10. *)
Definition linear_byte_check (v : Z) : bool :=
  Bool.eqb (F32.ltb (F32.div (F32.of_Z v) c_255) c_0_04045) (v <=? 10).

(** *** Zeros and their sign *)

Definition is_zero (x : spec_float) : bool :=
  match x with
  | S754_zero _ => true
  | _ => false
  end.

(** The same value, or two zeros. *)
Definition alike (x y : spec_float) : Prop :=
  x = y \/ (is_zero x = true /\ is_zero y = true).

(** Rows [k1] and [k2] of a matrix stored row by row hold the same
    coefficients, up to the sign of a zero. *)
Definition rows_alike (m : list spec_float) (k1 k2 : nat) : Prop :=
  alike (at_ m k1) (at_ m k2)
  /\ alike (at_ m (k1 + 1)) (at_ m (k2 + 1))
  /\ alike (at_ m (k1 + 2)) (at_ m (k2 + 2)).

(** The two channels a dichromat of the given kind does not tell apart in
    the single-matrix simulation: red and green, or green and blue. *)
Definition merged_channels (deficiency : Z) : Z * Z :=
  if deficiency =? enum_value DLDeficiency_Tritan then (1, 2) else (0, 1).

(** The per-pixel bodies of the three states of the file. *)
Definition all_bodies (powf : spec_float -> spec_float -> spec_float)
    (deficiency : Z) (severity : spec_float)
  : list (Z -> Z -> Z -> result (Z * Z * Z)) :=
  [brettel_body powf (brettel_params deficiency) severity;
   vienot_body powf (vienot_table deficiency) severity;
   brettel_body powf (SvgTables.brettel_params deficiency) severity;
   ExplicitLMS.brettel_body powf (ExplicitLMS.brettel_params deficiency)
     severity;
   vienot_body powf (OtherStates.vienot_table deficiency) severity].

(** The three values an entry point hands to the encoder for a pixel. *)
Definition encoder_inputs (powf : spec_float -> spec_float -> spec_float)
    (ep : entry_point) (d : DLDeficiency) (severity : spec_float)
    (r g b : Z) : spec_float * spec_float * spec_float :=
  let rgb0 := linearRGB_from_sRGB powf r in
  let rgb1 := linearRGB_from_sRGB powf g in
  let rgb2 := linearRGB_from_sRGB powf b in
  let m := matrix_for ep d rgb0 rgb1 rgb2 in
  let blend := if uses_brettel ep d then brettel_blend else vienot_blend in
  (blend severity (row_dot m 0 rgb0 rgb1 rgb2) rgb0,
   blend severity (row_dot m 3 rgb0 rgb1 rgb2) rgb1,
   blend severity (row_dot m 6 rgb0 rgb1 rgb2) rgb2).

(** The entries of a matrix (or of a row vector) are finite. *)
Definition entries_finite (m : list spec_float) : bool :=
  forallb finite_or_zero m.

Definition lms_params_finite (p : ExplicitLMS.DLBrettel1997Params) : bool :=
  entries_finite (ExplicitLMS.projectionOnPlane1 p)
  && entries_finite (ExplicitLMS.projectionOnPlane2 p)
  && (length (ExplicitLMS.projectionOnPlane1 p) =? 3)%nat
  && (length (ExplicitLMS.projectionOnPlane2 p) =? 3)%nat
  && (ExplicitLMS.lmsElementToProject p <? 3)%nat.

(** *** The entry points of the two other states of the file *)

Definition other_entry_points
    (powf : spec_float -> spec_float -> spec_float)
  : list (Z -> spec_float -> list Z -> Z -> Z -> Z -> result (list Z)) :=
  [SvgTables.dl_simulate_cvd_brettel1997 powf;
   ExplicitLMS.dl_simulate_cvd_brettel1997 powf;
   OtherStates.dl_simulate_cvd_vienot1999 powf;
   OtherStates.dl_simulate_cvd (SvgTables.dl_simulate_cvd_brettel1997 powf)
     powf;
   OtherStates.dl_simulate_cvd (ExplicitLMS.dl_simulate_cvd_brettel1997 powf)
     powf].

(** The sizes for which no product of the walk wraps around. *)
Definition sizes_fit (width height bytesPerRow : Z) : Prop :=
  0 <= width /\ 0 <= height /\ 0 <= bytesPerRow
  /\ 4 * width < size_max
  /\ (0 < height -> stride_of width bytesPerRow * (height - 1) < size_max).

(** [pre] put back in front of what a call on the rest of a buffer
    returns. *)
Definition with_prefix (pre : list Z) (r : result (list Z))
  : result (list Z) :=
  rest ← r; Ok (pre ++ rest).

(** The call on the rows that start at row [h1] of the buffer: the pointer
    is moved by [h1] strides, the bytes before it are out of its reach. *)
Definition from_row (h1 width bytesPerRow : Z)
    (call : list Z -> result (list Z)) (img : list Z) : result (list Z) :=
  let k := Z.to_nat (stride_of width bytesPerRow * h1) in
  with_prefix (take k img) (call (drop k img)).

(** *** The test program *)

(** Bytes [i] of the two buffers differ by 1 at most. *)
Definition close_at (a b : list Z) (i : Z) : bool :=
  Z.abs (byte_at a i - byte_at b i) <=? 1.

(** The two buffers differ by 1 at most on each of their first [n] bytes. *)
Definition close_upto (a b : list Z) (n : Z) : bool :=
  forallb (close_at a b) (seqZ 0 n).

(** The [int] a test returns. *)
Definition returned_code (o : TestSimulation.outcome (Z * list Z))
  : option Z :=
  match o with
  | TestSimulation.Returns (c, _) => Some c
  | TestSimulation.Undefined => None
  end.

(** The context of a test: the input image, its size, and the scratch
    buffer. *)
Definition test_context (input : list Z) (w h : Z) (tmp : list Z)
  : TestSimulation.Context :=
  {| TestSimulation.inputBuffer := input;
     TestSimulation.tmpImageBuffer := tmp;
     TestSimulation.width := w;
     TestSimulation.height := h |}.

(** A block of a test run on the scratch buffer [tmp], from a count of 0. *)
Definition fresh_block (stbi_load : TestSimulation.ground_truth
                                    -> TestSimulation.loaded)
    (input : list Z) (w h : Z) (tmp : list Z)
    (simulate : Z -> spec_float -> list Z -> Z -> Z -> Z -> result (list Z))
    (d : DLDeficiency) (severity : spec_float)
    (gt_name : TestSimulation.ground_truth)
  : TestSimulation.outcome (Z * list Z) :=
  TestSimulation.simulate_and_compare stbi_load simulate d severity gt_name
    (test_context input w h tmp) (0, tmp).

(** Expected images for the one-pixel input (2, 6, 0, 255): what the
    transforms of this file compute with the reference [powf]. *)
Definition sample_input : list Z := [2; 6; 0; 255].

Definition sample_ground_truth (g : TestSimulation.ground_truth)
  : TestSimulation.loaded :=
  Eval vm_compute in
  let expect (r : result (list Z)) :=
    {| TestSimulation.pixels := match r with Ok img => img | Fault _ => [] end;
       TestSimulation.loaded_width := 1;
       TestSimulation.loaded_height := 1 |} in
  let v d s := expect (dl_simulate_cvd_vienot1999 Libm.powf_ref (enum_value d)
                         s sample_input 1 1 0) in
  let b d s := expect (dl_simulate_cvd_brettel1997 Libm.powf_ref (enum_value d)
                         s sample_input 1 1 0) in
  match g with
  | TestSimulation.vienot1999_protan_1_0 =>
      v DLDeficiency_Protan TestSimulation.severity_1_0
  | TestSimulation.vienot1999_deutan_1_0 =>
      v DLDeficiency_Deutan TestSimulation.severity_1_0
  | TestSimulation.vienot1999_tritan_1_0 =>
      v DLDeficiency_Tritan TestSimulation.severity_1_0
  | TestSimulation.vienot1999_protan_0_55 =>
      v DLDeficiency_Protan TestSimulation.severity_0_55
  | TestSimulation.vienot1999_deutan_0_55 =>
      v DLDeficiency_Deutan TestSimulation.severity_0_55
  | TestSimulation.vienot1999_tritan_0_55 =>
      v DLDeficiency_Tritan TestSimulation.severity_0_55
  | TestSimulation.brettel1997_protan_wn_1_0 =>
      b DLDeficiency_Protan TestSimulation.severity_1_0
  | TestSimulation.brettel1997_deutan_wn_1_0 =>
      b DLDeficiency_Deutan TestSimulation.severity_1_0
  | TestSimulation.brettel1997_tritan_wn_1_0 =>
      b DLDeficiency_Tritan TestSimulation.severity_1_0
  | TestSimulation.brettel1997_protan_wn_0_55 =>
      b DLDeficiency_Protan TestSimulation.severity_0_55
  | TestSimulation.brettel1997_deutan_wn_0_55 =>
      b DLDeficiency_Deutan TestSimulation.severity_0_55
  | TestSimulation.brettel1997_tritan_wn_0_55 =>
      b DLDeficiency_Tritan TestSimulation.severity_0_55
  end.

(** * Properties *)

(** ** Facts on binary32 rounding *)

Lemma Zdigits2_log2 (m : Z) : 0 < m -> Zdigits2 m = Z.log2 m + 1.
Proof.
  destruct m as [|p|p]; try lia. intros _. cbn [Zdigits2].
  induction p as [p IH | p IH |].
  - cbn [digits2_pos]. rewrite Pos2Z.inj_succ, IH.
    rewrite (Pos2Z.inj_xI p), Z.log2_succ_double by lia. lia.
  - cbn [digits2_pos]. rewrite Pos2Z.inj_succ, IH.
    rewrite (Pos2Z.inj_xO p), Z.log2_double by lia. lia.
  - reflexivity.
Qed.

Lemma Zdigits2_nonneg (m : Z) : 0 <= m -> 0 <= Zdigits2 m.
Proof. destruct m; cbn; lia. Qed.

Lemma Zdigits2_shiftr (m n : Z) :
  0 < m -> 0 <= n -> Zdigits2 (Z.shiftr m n) = Z.max 0 (Zdigits2 m - n).
Proof.
  intros Hm Hn.
  assert (Hs : 0 <= Z.shiftr m n) by (apply Z.shiftr_nonneg; lia).
  destruct (Z.eq_dec (Z.shiftr m n) 0) as [E | E].
  - rewrite E. cbn [Zdigits2].
    apply Z.shiftr_eq_0_iff in E. rewrite Zdigits2_log2 by lia. lia.
  - rewrite !Zdigits2_log2 by lia. rewrite Z.log2_shiftr by lia.
    assert (n <= Z.log2 m).
    { destruct (Z_le_dec n (Z.log2 m)); [assumption|]. exfalso. apply E.
      apply Z.shiftr_eq_0_iff. right. lia. }
    lia.
Qed.

Lemma Zdigits2_succ (m : Z) :
  0 <= m ->
  Zdigits2 (m + 1) = Zdigits2 m
  \/ (Zdigits2 (m + 1) = Zdigits2 m + 1 /\ m + 1 = 2 ^ Zdigits2 m).
Proof.
  intros Hm. destruct (Z.eq_dec m 0) as [-> | Hm0]; [right; split; reflexivity|].
  rewrite !Zdigits2_log2 by lia.
  destruct (Z.log2_succ_or m) as [E | E]; change (Z.succ m) with (m + 1) in E.
  - right. split; [lia|]. pose proof E as E0.
    apply Z.log2_eq_succ_iff_pow2 in E; [|lia].
    destruct E as (b & Hb). change (Z.succ m) with (m + 1) in Hb.
    assert (0 <= b) by (destruct (Z_le_dec 0 b); [lia|]; rewrite Z.pow_neg_r in Hb; lia).
    rewrite Hb. f_equal.
    assert (Z.log2 (m + 1) = b) by (rewrite Hb; apply Z.log2_pow2; lia).
    lia.
  - left. lia.
Qed.

Lemma shr_1_m (mrs : shr_record) :
  0 <= shr_m mrs -> shr_m (shr_1 mrs) = Z.div2 (shr_m mrs).
Proof.
  destruct mrs as [m r s]. cbn [shr_m]. intros Hm.
  destruct m as [|[p|p|]|p]; try lia; reflexivity.
Qed.

Lemma iter_shr_1_m (n : positive) : forall mrs,
  0 <= shr_m mrs ->
  shr_m (SpecFloat.iter_pos shr_1 n mrs) = Z.shiftr (shr_m mrs) (Zpos n).
Proof.
  assert (Hstep : forall mrs, 0 <= shr_m mrs -> 0 <= shr_m (shr_1 mrs)).
  { intros mrs H. rewrite shr_1_m by assumption. apply Z.div2_nonneg. assumption. }
  induction n as [n IH | n IH |]; intros mrs Hm; cbn [SpecFloat.iter_pos].
  - rewrite IH, IH, shr_1_m by (try rewrite IH; try apply Z.shiftr_nonneg; auto).
    rewrite Z.div2_spec, !Z.shiftr_shiftr by lia. f_equal. lia.
  - rewrite IH, IH by (try rewrite IH; try apply Z.shiftr_nonneg; auto).
    rewrite Z.shiftr_shiftr by lia. f_equal. lia.
  - rewrite shr_1_m by assumption. apply Z.div2_spec.
Qed.

(** Shifting right by [n] (nothing when [n <= 0]). *)
Lemma shr_m_e (m e n : Z) (r s : bool) :
  0 <= m ->
  shr_m (fst (shr (Build_shr_record m r s) e n)) = Z.shiftr m (Z.max 0 n)
  /\ snd (shr (Build_shr_record m r s) e n) = e + Z.max 0 n.
Proof.
  intros Hm. destruct n as [|p|p]; cbn [shr fst snd shr_m].
  - rewrite Z.shiftr_0_r. split; lia.
  - rewrite iter_shr_1_m by assumption. cbn [shr_m].
    rewrite Z.max_r by lia. split; reflexivity.
  - rewrite Z.max_l by lia. rewrite Z.shiftr_0_r. split; lia.
Qed.

Lemma round_nearest_even_bounds (m : Z) (l : location) :
  round_nearest_even m l = m \/ round_nearest_even m l = m + 1.
Proof.
  destruct l as [|[| |]]; cbn; auto. destruct (Z.even m); auto.
Qed.

Lemma fexp32_eq (x : Z) : fexp 24 128 x = Z.max (x - 24) (-149).
Proof. reflexivity. Qed.

(** The two roundings of [binary_round_aux] on an exact input whose exponent
    is not above the canonical one: the result is a zero, or a number in
    canonical form (overflowing to an infinity). *)
Lemma round_exact_cases (s : bool) (m e : Z) :
  0 < m -> e <= fexp 24 128 (Zdigits2 m + e) ->
  exists m3 e3,
    binary_round_aux 24 128 s m e loc_Exact
    = match m3 with
      | Z0 => S754_zero s
      | Zpos p => if e3 <=? 104 then S754_finite s p e3 else S754_infinity s
      | Zneg _ => S754_nan
      end
    /\ 0 <= m3
    /\ (0 < m3 -> fexp 24 128 (Zdigits2 m3 + e3) = e3)
    /\ fexp 24 128 (Zdigits2 m + e) <= e3 <= fexp 24 128 (Zdigits2 m + e) + 1.
Proof.
  intros Hm He. unfold binary_round_aux, shr_fexp.
  cbn [shr_record_of_loc].
  set (n := fexp 24 128 (Zdigits2 m + e) - e).
  destruct (shr_m_e m e n false false ltac:(lia)) as [Hm1 He1].
  destruct (shr {| shr_m := m; shr_r := false; shr_s := false |} e n)
    as [mrs1 e1].
  cbn [fst snd] in Hm1, He1.
  assert (Hn : 0 <= n) by (unfold n; lia).
  rewrite Z.max_r in Hm1, He1 by lia.
  set (m1 := shr_m mrs1) in *.
  assert (Hm1pos : 0 <= m1) by (rewrite Hm1; apply Z.shiftr_nonneg; lia).
  assert (HD1 : Zdigits2 m1 = Z.max 0 (Zdigits2 m - n))
    by (rewrite Hm1; apply Zdigits2_shiftr; lia).
  set (m2 := round_nearest_even m1 (loc_of_shr_record mrs1)).
  assert (Hm2 : m2 = m1 \/ m2 = m1 + 1) by apply round_nearest_even_bounds.
  assert (Hm2pos : 0 <= m2) by lia.
  set (n2 := fexp 24 128 (Zdigits2 m2 + e1) - e1).
  destruct (shr_m_e m2 e1 n2 false false Hm2pos) as [Hm3 He3].
  destruct (shr {| shr_m := m2; shr_r := false; shr_s := false |} e1 n2)
    as [mrs3 e3].
  cbn [fst snd] in Hm3, He3.
  exists (shr_m mrs3), e3. split; [reflexivity|].
  pose proof (Zdigits2_nonneg m ltac:(lia)) as Hd.
  assert (Hd1 : 1 <= Zdigits2 m) by (rewrite Zdigits2_log2 by lia; pose proof (Z.log2_nonneg m); lia).
  assert (HD2 : Zdigits2 m2 = Zdigits2 m1
                \/ (Zdigits2 m2 = Zdigits2 m1 + 1 /\ m2 = 2 ^ Zdigits2 m1)).
  { destruct Hm2 as [-> | ->]; [left; reflexivity|].
    destruct (Zdigits2_succ m1 Hm1pos) as [E | [E1 E2]]; [left|right]; auto. }
  assert (En : n = Z.max (Zdigits2 m + e - 24) (-149) - e) by reflexivity.
  assert (En2 : n2 = Z.max (Zdigits2 m2 + e1 - 24) (-149) - e1) by reflexivity.
  clearbody n n2. rewrite !fexp32_eq in *.
  destruct (Z_le_dec (Zdigits2 m2) 24) as [Hle | Hgt].
  - (* no second shift *)
    assert (Hn2 : n2 <= 0) by lia.
    rewrite Z.max_l in Hm3, He3 by lia. rewrite Z.shiftr_0_r in Hm3.
    rewrite Hm3, He3. split; [lia|]. split; [|lia].
    intros Hpos. lia.
  - (* the mantissa reached 2^24 *)
    assert (Zdigits2 m1 = 24) by lia.
    assert (Hm2v : m2 = 16777216).
    { destruct HD2 as [E | [_ E]]; [lia|]. rewrite E.
      replace (Zdigits2 m1) with 24 by lia. reflexivity. }
    assert (HD2v : Zdigits2 m2 = 25) by (rewrite Hm2v; reflexivity).
    assert (Hn2 : n2 = 1) by lia.
    rewrite Hn2, Hm2v in Hm3. rewrite Hn2 in He3.
    change (Z.shiftr 16777216 (Z.max 0 1)) with 8388608 in Hm3.
    rewrite Hm3, He3. change (Zdigits2 8388608) with 24.
    split; [lia|]. split; [|lia].
    intros _. lia.
Qed.

Lemma bounded_by_finite_or_zero E x :
  bounded_by E x = true -> finite_or_zero x = true.
Proof. destruct x; cbn; congruence. Qed.

Lemma bounded_by_valid E x : bounded_by E x = true -> F32.valid x = true.
Proof.
  destruct x; cbn; try congruence. intros H.
  apply andb_true_iff in H. tauto.
Qed.

Lemma bounded_by_mono E E' x :
  E <= E' -> bounded_by E x = true -> bounded_by E' x = true.
Proof.
  intros HE. destruct x; cbn; try congruence.
  rewrite !andb_true_iff. intros [H1 H2]. split; [assumption|]. lia.
Qed.

Lemma bounded_canonical m e :
  bounded 24 128 m e = true ->
  Z.max (Zpos (digits2_pos m) + e - 24) (-149) = e /\ e <= 104.
Proof.
  unfold bounded, canonical_mantissa. rewrite andb_true_iff, fexp32_eq.
  intros [H1 H2]. apply Z.eqb_eq in H1. apply Z.leb_le in H2.
  change (128 - 24) with 104 in H2. split; assumption.
Qed.

Lemma canonical_bounded m e :
  Z.max (Zpos (digits2_pos m) + e - 24) (-149) = e -> e <= 104 ->
  bounded 24 128 m e = true.
Proof.
  intros H1 H2. unfold bounded, canonical_mantissa.
  rewrite andb_true_iff, fexp32_eq. split; [apply Z.eqb_eq | apply Z.leb_le].
  - assumption.
  - change (128 - 24) with 104. assumption.
Qed.

(** What [round_exact_cases] gives when the input is below [2^E]. *)
Lemma round_exact_bounded (s : bool) (m e E : Z) :
  0 < m -> e <= fexp 24 128 (Zdigits2 m + e) ->
  Zdigits2 m + e <= E -> -125 <= E <= 127 ->
  bounded_by (E + 1) (binary_round_aux 24 128 s m e loc_Exact) = true.
Proof.
  intros Hm He HE Hrange.
  destruct (round_exact_cases s m e Hm He) as (m3 & e3 & -> & Hpos & Hcan & Hb).
  rewrite fexp32_eq in Hb.
  destruct m3 as [|p|p]; [reflexivity | | lia].
  specialize (Hcan ltac:(lia)). rewrite fexp32_eq in Hcan. cbn [Zdigits2] in Hcan.
  destruct (e3 <=? 104) eqn:E104.
  - cbn [bounded_by]. rewrite canonical_bounded by (try apply Z.leb_le; lia).
    cbn. apply Z.leb_le. lia.
  - apply Z.leb_gt in E104. lia.
Qed.

Lemma Zdigits2_mul_bounds (a b : positive) :
  Zpos (digits2_pos a) + Zpos (digits2_pos b) - 1
  <= Zdigits2 (Zpos (a * b))
  <= Zpos (digits2_pos a) + Zpos (digits2_pos b).
Proof.
  change (Zpos (digits2_pos a)) with (Zdigits2 (Zpos a)).
  change (Zpos (digits2_pos b)) with (Zdigits2 (Zpos b)).
  rewrite !Zdigits2_log2 by lia. rewrite Pos2Z.inj_mul.
  pose proof (Z.log2_mul_below (Zpos a) (Zpos b) ltac:(lia) ltac:(lia)).
  pose proof (Z.log2_mul_above (Zpos a) (Zpos b) ltac:(lia) ltac:(lia)).
  lia.
Qed.

Lemma mul_bounded (E1 E2 : Z) (x y : spec_float) :
  bounded_by E1 x = true -> bounded_by E2 y = true ->
  -125 <= E1 + E2 <= 127 ->
  bounded_by (E1 + E2 + 1) (F32.mul x y) = true.
Proof.
  intros Hx Hy HE.
  destruct x as [sx | sx | | sx mx ex]; try discriminate Hx;
    destruct y as [sy | sy | | sy my ey]; try discriminate Hy;
    try reflexivity.
  cbn [bounded_by] in Hx, Hy. apply andb_true_iff in Hx, Hy.
  destruct Hx as [Hbx Hex], Hy as [Hby Hey].
  apply bounded_canonical in Hbx, Hby. apply Z.leb_le in Hex, Hey.
  pose proof (Zdigits2_mul_bounds mx my) as Hd.
  unfold F32.mul, F32.prec, F32.emax. cbn [SFmul].
  apply round_exact_bounded; rewrite ?fexp32_eq; lia.
Qed.

Lemma iter_xO_value (m d : positive) :
  Zpos (Pos.iter xO m d) = Zpos m * 2 ^ Zpos d.
Proof.
  induction d as [|d IH] using Pos.peano_ind.
  - cbn. lia.
  - rewrite Pos.iter_succ, Pos2Z.inj_xO, IH, Pos2Z.inj_succ.
    rewrite Z.pow_succ_r by lia. lia.
Qed.

Lemma shl_align_spec (mx : positive) (ex ex' : Z) :
  snd (shl_align mx ex ex') = Z.min ex ex'
  /\ Zpos (fst (shl_align mx ex ex'))
     = Zpos mx * 2 ^ (ex - Z.min ex ex').
Proof.
  unfold shl_align. destruct (ex' - ex) as [|d|d] eqn:E; cbn [fst snd].
  - rewrite Z.min_l by lia. rewrite Z.sub_diag. split; lia.
  - rewrite Z.min_l by lia. rewrite Z.sub_diag. split; lia.
  - rewrite Z.min_r by lia. split; [reflexivity|].
    rewrite iter_xO_value. f_equal. f_equal. lia.
Qed.

Lemma Zdigits2_mul_pow2 (m k : Z) :
  0 < m -> 0 <= k -> Zdigits2 (m * 2 ^ k) = Zdigits2 m + k.
Proof.
  intros Hm Hk. assert (0 < 2 ^ k) by (apply Z.pow_pos_nonneg; lia).
  rewrite !Zdigits2_log2 by nia. rewrite Z.log2_mul_pow2 by lia. lia.
Qed.

Lemma Zdigits2_le (m k : Z) : 0 < m -> m < 2 ^ k -> Zdigits2 m <= k.
Proof.
  intros Hm Hlt. rewrite Zdigits2_log2 by lia.
  apply Z.log2_lt_pow2 in Hlt; lia.
Qed.

Lemma lt_pow2_digits (m : Z) : 0 < m -> m < 2 ^ Zdigits2 m.
Proof.
  intros Hm. rewrite Zdigits2_log2 by lia.
  pose proof (Z.log2_spec m Hm). change (Z.succ (Z.log2 m)) with (Z.log2 m + 1) in *. lia.
Qed.

Lemma binary_round_bounded (s : bool) (m : positive) (e E : Z) :
  Zpos (digits2_pos m) + e <= E -> -125 <= E <= 127 ->
  bounded_by (E + 1) (binary_round 24 128 s m e) = true.
Proof.
  intros HE Hrange. unfold binary_round.
  destruct (shl_align_spec m e (fexp 24 128 (Zpos (digits2_pos m) + e)))
    as [He' Hm'].
  destruct (shl_align m e (fexp 24 128 (Zpos (digits2_pos m) + e)))
    as [mz ez]. cbn [fst snd] in He', Hm'.
  assert (Hd : Zdigits2 (Zpos mz) + ez = Zpos (digits2_pos m) + e).
  { rewrite Hm', Zdigits2_mul_pow2 by lia. cbn [Zdigits2]. lia. }
  apply round_exact_bounded; rewrite ?Hd; try lia.
Qed.

Lemma binary_normalize_bounded (M e E : Z) (sz : bool) :
  Z.abs M < 2 ^ (E - e) -> -125 <= E <= 127 ->
  bounded_by (E + 1) (binary_normalize 24 128 M e sz) = true.
Proof.
  intros HM Hrange. destruct M as [|p|p]; [reflexivity | |];
    cbn [binary_normalize]; apply binary_round_bounded; try lia;
    change (Zpos (digits2_pos p)) with (Zdigits2 (Zpos p));
    pose proof (Zdigits2_le (Zpos p) (E - e) ltac:(lia) ltac:(lia)); lia.
Qed.

Lemma shifted_mantissa_lt (m : positive) (e ez E : Z) :
  bounded 24 128 m e = true -> e + 24 <= E -> ez <= e ->
  Zpos m * 2 ^ (e - ez) < 2 ^ (E - ez).
Proof.
  intros Hb HE Hez. apply bounded_canonical in Hb.
  pose proof (lt_pow2_digits (Zpos m) ltac:(lia)) as Hm. cbn [Zdigits2] in Hm.
  assert (Hd : Zpos (digits2_pos m) <= 24) by lia.
  assert (Zpos m < 2 ^ 24).
  { eapply Z.lt_le_trans; [exact Hm|]. apply Z.pow_le_mono_r; lia. }
  assert (0 < 2 ^ (e - ez)) by (apply Z.pow_pos_nonneg; lia).
  apply Z.lt_le_trans with (2 ^ 24 * 2 ^ (e - ez)); [nia|].
  rewrite <- Z.pow_add_r by lia. apply Z.pow_le_mono_r; lia.
Qed.

Lemma add_bounded (E : Z) (x y : spec_float) :
  bounded_by E x = true -> bounded_by E y = true ->
  -126 <= E <= 126 ->
  bounded_by (E + 2) (F32.add x y) = true.
Proof.
  intros Hx Hy HE.
  destruct x as [sx | sx | | sx mx ex]; try discriminate Hx;
    destruct y as [sy | sy | | sy my ey]; try discriminate Hy.
  - destruct sx, sy; reflexivity.
  - apply bounded_by_mono with E; [lia | exact Hy].
  - apply bounded_by_mono with E; [lia | exact Hx].
  - cbn [bounded_by] in Hx, Hy. apply andb_true_iff in Hx, Hy.
    destruct Hx as [Hbx Hex], Hy as [Hby Hey]. apply Z.leb_le in Hex, Hey.
    unfold F32.add, F32.prec, F32.emax. cbn [SFadd].
    set (ez := Z.min ex ey).
    destruct (shl_align_spec mx ex ez) as [_ Hax].
    destruct (shl_align_spec my ey ez) as [_ Hay].
    rewrite Z.min_r in Hax, Hay by (unfold ez; lia).
    pose proof (shifted_mantissa_lt mx ex ez E Hbx Hex ltac:(unfold ez; lia)) as Hlx.
    pose proof (shifted_mantissa_lt my ey ez E Hby Hey ltac:(unfold ez; lia)) as Hly.
    rewrite <- Hax in Hlx. rewrite <- Hay in Hly.
    replace (E + 2) with (E + 1 + 1) by lia.
    apply binary_normalize_bounded; [|lia].
    replace (E + 1 - ez) with (Z.succ (E - ez)) by lia.
    rewrite Z.pow_succ_r by (apply bounded_canonical in Hbx, Hby; unfold ez; lia).
    destruct sx, sy; cbn [cond_Zopp]; lia.
Qed.

Lemma round_exact_shifted (s : bool) (m : positive) (e : Z) :
  bounded 24 128 m e = true ->
  binary_round_aux 24 128 s
    (Zpos m~0~0~0~0~0~0~0~0~0~0~0~0~0~0~0~0~0~0~0~0~0~0~0) (e + -23) loc_Exact
  = S754_finite s m e.
Proof.
  intros Hb. pose proof (bounded_canonical m e Hb) as [Hcan Hle].
  unfold binary_round_aux, shr_fexp. cbn [Zdigits2 digits2_pos].
  replace (fexp 24 128 _) with e
    by (rewrite fexp32_eq, !Pos2Z.inj_succ; lia).
  replace (e - (e + -23)) with 23 by lia.
  cbn [shr shr_record_of_loc SpecFloat.iter_pos shr_1 shr_m orb
       loc_of_shr_record round_nearest_even].
  replace (e + -23 + 23) with e by lia.
  cbn [Zdigits2]. rewrite fexp32_eq, Hcan, Z.sub_diag.
  cbn [shr shr_m]. change (128 - 24) with 104.
  apply Z.leb_le in Hle. rewrite Hle. reflexivity.
Qed.

Lemma mul_one_r (E : Z) (x : spec_float) :
  bounded_by E x = true -> F32.mul x F32.one = x.
Proof.
  destruct x as [s | s | | s m e]; try discriminate.
  - destruct s; reflexivity.
  - cbn [bounded_by]. intros H. apply andb_true_iff in H. destruct H as [Hb _].
    unfold F32.mul, F32.one, F32.prec, F32.emax. cbn [SFmul].
    rewrite Pos.mul_comm. cbn [Pos.mul]. rewrite xorb_false_r.
    apply round_exact_shifted. exact Hb.
Qed.

Lemma mul_one_l (E : Z) (x : spec_float) :
  bounded_by E x = true -> F32.mul F32.one x = x.
Proof.
  destruct x as [s | s | | s m e]; try discriminate.
  - destruct s; reflexivity.
  - cbn [bounded_by]. intros H. apply andb_true_iff in H. destruct H as [Hb _].
    unfold F32.mul, F32.one, F32.prec, F32.emax. cbn [SFmul Pos.mul xorb].
    replace (-23 + e) with (e + -23) by lia.
    apply round_exact_shifted. exact Hb.
Qed.

Lemma mul_zero_l (cvd : spec_float) :
  finite_or_zero cvd = true ->
  exists s, F32.mul F32.zero cvd = S754_zero s.
Proof. destruct cvd; try discriminate; intros _; eexists; reflexivity. Qed.

Lemma mul_zero_r (cvd : spec_float) :
  finite_or_zero cvd = true ->
  exists s, F32.mul cvd F32.zero = S754_zero s.
Proof. destruct cvd; try discriminate; intros _; eexists; reflexivity. Qed.

Lemma add_zero_l (s : bool) (x : spec_float) :
  nonneg x = true -> F32.add (S754_zero s) x = x.
Proof. destruct x as [[|] | | | [|] m e]; try discriminate; destruct s; reflexivity. Qed.

Lemma row_dot_bounded (m : list spec_float) (k : nat) (r g b : spec_float) :
  bounded_by 1 (at_ m k) = true -> bounded_by 1 (at_ m (k + 1)) = true ->
  bounded_by 1 (at_ m (k + 2)) = true ->
  bounded_by 1 r = true -> bounded_by 1 g = true -> bounded_by 1 b = true ->
  bounded_by 7 (row_dot m k r g b) = true.
Proof.
  intros H0 H1 H2 Hr Hg Hb. unfold row_dot.
  change 7 with (5 + 2). apply add_bounded; [| |lia].
  - change 5 with (3 + 2). apply add_bounded; [| |lia].
    + change 3 with (1 + 1 + 1). apply mul_bounded; auto; lia.
    + change 3 with (1 + 1 + 1). apply mul_bounded; auto; lia.
  - apply bounded_by_mono with (1 + 1 + 1); [lia|]. apply mul_bounded; auto; lia.
Qed.

(** ** The blend at the two ends of the severity range *)

Lemma vienot_blend_zero (E : Z) (cvd orig : spec_float) :
  finite_or_zero cvd = true -> nonneg orig = true ->
  bounded_by E orig = true ->
  vienot_blend F32.zero cvd orig = orig.
Proof.
  intros Hc Hn Hb. unfold vienot_blend.
  change (F32.ltb F32.zero c_0_999) with true. cbv iota.
  change (F32.sub F32.one F32.zero) with F32.one.
  destruct (mul_zero_l cvd Hc) as [s ->].
  rewrite (mul_one_l E) by assumption. apply add_zero_l. assumption.
Qed.

Lemma brettel_blend_zero (E : Z) (cvd orig : spec_float) :
  finite_or_zero cvd = true -> nonneg orig = true ->
  bounded_by E orig = true ->
  brettel_blend F32.zero cvd orig = orig.
Proof.
  intros Hc Hn Hb. unfold brettel_blend.
  change (F32.sub F32.one F32.zero) with F32.one.
  destruct (mul_zero_r cvd Hc) as [s ->].
  rewrite (mul_one_r E) by assumption. apply add_zero_l. assumption.
Qed.

Lemma vienot_blend_one (cvd orig : spec_float) :
  vienot_blend F32.one cvd orig = cvd.
Proof. reflexivity. Qed.

Lemma encode_of_zero powf (s : bool) :
  sRGB_from_linearRGB powf (S754_zero s) = 0.
Proof. destruct s; reflexivity. Qed.

Lemma brettel_blend_one powf (E : Z) (cvd orig : spec_float) :
  bounded_by E cvd = true -> nonneg orig = true ->
  sRGB_from_linearRGB powf (brettel_blend F32.one cvd orig)
  = sRGB_from_linearRGB powf cvd.
Proof.
  intros Hb Hn. unfold brettel_blend.
  change (F32.sub F32.one F32.one) with F32.zero.
  rewrite (mul_one_r E) by assumption.
  assert (Hz : F32.mul orig F32.zero = F32.zero)
    by (destruct orig as [[|] | | | [|] m e]; try discriminate; reflexivity).
  rewrite Hz.
  destruct cvd as [s | s | | s m e]; try discriminate Hb.
  - replace (F32.add (S754_zero s) F32.zero) with (S754_zero false)
      by (destruct s; reflexivity).
    rewrite !encode_of_zero. reflexivity.
  - reflexivity.
Qed.

(** ** The codec on the 256 byte values *)

Lemma all_bytes_ok :
  forall n, In n (seq 0 256) -> byte_check (Z.of_nat n) = true.
Proof.
  apply (proj1 (forallb_forall (fun n => byte_check (Z.of_nat n)) (seq 0 256))).
  vm_compute. reflexivity.
Qed.

Lemma byte_checked (v : Z) : 0 <= v < 256 -> byte_check v = true.
Proof.
  intros Hv. replace v with (Z.of_nat (Z.to_nat v)) by lia.
  apply all_bytes_ok. apply in_seq. lia.
Qed.

Section CodecFacts.
Variable powf : spec_float -> spec_float -> spec_float.
Hypothesis powf_ok : powf_accurate powf.

Lemma decode_in_candidates (v : Z) :
  byte_check v = true ->
  In (linearRGB_from_sRGB powf v) (decode_candidates v).
Proof.
  unfold byte_check, linearRGB_from_sRGB, decode_candidates.
  intros H. apply andb_true_iff in H. destruct H as [H _].
  destruct (F32.ltb (F32.div (F32.of_Z v) c_255) c_0_04045).
  - left. reflexivity.
  - cbn [orb] in H. apply powf_ok; [exact H | left; reflexivity].
Qed.

Lemma encode_in_candidates (x : spec_float) :
  F32.leb x F32.zero || F32.leb F32.one x
  || F32.ltb x c_0_0031308 || positive_finite x = true ->
  In (sRGB_from_linearRGB powf x) (encode_candidates x).
Proof.
  unfold sRGB_from_linearRGB, encode_candidates. intros H.
  destruct (F32.leb x F32.zero); [left; reflexivity|].
  destruct (F32.leb F32.one x); [left; reflexivity|].
  destruct (F32.ltb x c_0_0031308); [left; reflexivity|].
  cbn [orb] in H. apply in_map. apply powf_ok; [exact H | right; reflexivity].
Qed.

(** The decoded value of a byte is non-negative and below 2, and encoding
    it gives the byte back, or the byte below. *)
Lemma byte_facts (v : Z) :
  0 <= v < 256 ->
  nonneg (linearRGB_from_sRGB powf v) = true
  /\ bounded_by 1 (linearRGB_from_sRGB powf v) = true
  /\ v - 1 <= sRGB_from_linearRGB powf (linearRGB_from_sRGB powf v) <= v.
Proof.
  intros Hv. pose proof (byte_checked v Hv) as Hc.
  pose proof (decode_in_candidates v Hc) as Hin.
  unfold byte_check in Hc. apply andb_true_iff in Hc. destruct Hc as [_ Hc].
  rewrite forallb_forall in Hc. specialize (Hc _ Hin).
  rewrite !andb_true_iff in Hc. destruct Hc as [[[Hn Hb] Ha] He].
  split; [exact Hn|]. split; [exact Hb|].
  rewrite forallb_forall in He.
  specialize (He _ (encode_in_candidates _ Ha)).
  apply andb_true_iff in He. destruct He as [H1 H2].
  apply Z.leb_le in H1, H2. lia.
Qed.

(** ** One pixel at severity 0 and at severity 1 *)

Lemma matrix_for_ok ep d rgb0 rgb1 rgb2 :
  matrix_ok (matrix_for ep d rgb0 rgb1 rgb2) = true.
Proof.
  unfold matrix_for, brettel_plane.
  destruct ep, d; cbn [uses_brettel brettel_table vienot_matrix];
    try match goal with |- context [if ?c then _ else _] => destruct c end;
    reflexivity.
Qed.

Lemma row_bounded (m : list spec_float) (k : nat) (r g b : Z) :
  matrix_ok m = true -> (k = 0 \/ k = 3 \/ k = 6)%nat ->
  0 <= r < 256 -> 0 <= g < 256 -> 0 <= b < 256 ->
  bounded_by 7
    (row_dot m k (linearRGB_from_sRGB powf r) (linearRGB_from_sRGB powf g)
       (linearRGB_from_sRGB powf b)) = true.
Proof.
  intros Hm Hk Hr Hg Hb. unfold matrix_ok in Hm.
  rewrite forallb_forall in Hm.
  apply row_dot_bounded;
    try (apply Hm; apply in_seq; lia);
    try (apply byte_facts; assumption).
Qed.

Lemma pixel_fun_zero ep d (r g b : Z) :
  0 <= r < 256 -> 0 <= g < 256 -> 0 <= b < 256 ->
  pixel_fun powf ep d F32.zero r g b = round_trip powf r g b.
Proof.
  intros Hr Hg Hb. unfold pixel_fun, round_trip, matrix_blend_encode.
  set (m := matrix_for ep d _ _ _).
  assert (Hm : matrix_ok m = true) by apply matrix_for_ok.
  pose proof (row_bounded m 0 r g b Hm ltac:(auto) Hr Hg Hb) as H0.
  pose proof (row_bounded m 3 r g b Hm ltac:(auto) Hr Hg Hb) as H3.
  pose proof (row_bounded m 6 r g b Hm ltac:(auto) Hr Hg Hb) as H6.
  apply bounded_by_finite_or_zero in H0, H3, H6.
  destruct (byte_facts r Hr) as (Nr & Br & _).
  destruct (byte_facts g Hg) as (Ng & Bg & _).
  destruct (byte_facts b Hb) as (Nb & Bb & _).
  destruct (uses_brettel ep d).
  - rewrite !(brettel_blend_zero 1) by assumption. reflexivity.
  - rewrite !(vienot_blend_zero 1) by assumption. reflexivity.
Qed.

Lemma pixel_fun_one ep d (r g b : Z) :
  0 <= r < 256 -> 0 <= g < 256 -> 0 <= b < 256 ->
  pixel_fun powf ep d F32.one r g b = full_colour powf ep d r g b.
Proof.
  intros Hr Hg Hb. unfold pixel_fun, full_colour, matrix_blend_encode.
  set (m := matrix_for ep d _ _ _).
  assert (Hm : matrix_ok m = true) by apply matrix_for_ok.
  pose proof (row_bounded m 0 r g b Hm ltac:(auto) Hr Hg Hb) as H0.
  pose proof (row_bounded m 3 r g b Hm ltac:(auto) Hr Hg Hb) as H3.
  pose proof (row_bounded m 6 r g b Hm ltac:(auto) Hr Hg Hb) as H6.
  destruct (byte_facts r Hr) as (Nr & _).
  destruct (byte_facts g Hg) as (Ng & _).
  destruct (byte_facts b Hb) as (Nb & _).
  destruct (uses_brettel ep d).
  - rewrite !(brettel_blend_one powf 7) by assumption. reflexivity.
  - rewrite !vienot_blend_one. reflexivity.
Qed.
End CodecFacts.
(** ** The buffer walk *)

Section WalkProofs.
Variable body : Z -> Z -> Z -> result (Z * Z * Z).
Variable f : Z -> Z -> Z -> Z * Z * Z.
Hypothesis body_total : forall r g b, body r g b = Ok (f r g b).

Lemma load_in_range img i :
  0 <= i < Z.of_nat (length img) -> load img i = Ok (byte_at img i).
Proof.
  intros Hi. unfold load, byte_at.
  destruct (img !! Z.to_nat i) eqn:E; [reflexivity|].
  apply lookup_ge_None in E. lia.
Qed.

Lemma byte_at_store_eq img i v :
  0 <= i < Z.of_nat (length img) -> byte_at (store img i v) i = v.
Proof.
  intros Hi. unfold byte_at, store.
  rewrite list_lookup_insert_eq by lia. reflexivity.
Qed.

Lemma byte_at_store_ne img i j v :
  0 <= i -> 0 <= j -> i <> j -> byte_at (store img i v) j = byte_at img j.
Proof.
  intros Hi Hj Hne. unfold byte_at, store.
  rewrite list_lookup_insert_ne by lia. reflexivity.
Qed.

Lemma length_store img i v : length (store img i v) = length img.
Proof. unfold store. apply length_insert. Qed.

Lemma pixel_step_spec img p :
  0 <= p -> p + 3 <= Z.of_nat (length img) ->
  exists img',
    pixel_step body img p = Ok img'
    /\ length img' = length img
    /\ (forall c, 0 <= c < 3 -> byte_at img' (p + c) = chan c (transformed f img p))
    /\ (forall j, 0 <= j -> (j < p \/ p + 3 <= j) ->
        byte_at img' j = byte_at img j).
Proof.
  intros Hp Hlen. unfold pixel_step.
  rewrite !load_in_range by lia. cbn [mbind result_bind].
  rewrite body_total. cbn [mbind result_bind].
  unfold transformed, pixel_at. replace (p + 0) with p by lia.
  destruct (f (byte_at img p) (byte_at img (p + 1)) (byte_at img (p + 2)))
    as [[r' g'] b'] eqn:Ef.
  eexists. split; [reflexivity|]. split; [|split].
  - rewrite !length_store. reflexivity.
  - intros c Hc. unfold chan.
    assert (c = 0 \/ c = 1 \/ c = 2) as [-> | [-> | ->]] by lia; cbn.
    + replace (p + 0) with p by lia.
      rewrite !byte_at_store_ne by lia.
      apply byte_at_store_eq. lia.
    + rewrite byte_at_store_ne by lia.
      apply byte_at_store_eq. rewrite length_store. lia.
    + apply byte_at_store_eq. rewrite !length_store. lia.
  - intros j Hj Hout. rewrite !byte_at_store_ne by lia. reflexivity.
Qed.

Lemma transformed_ext img img' p :
  (forall c, 0 <= c < 3 -> byte_at img' (p + c) = byte_at img (p + c)) ->
  transformed f img' p = transformed f img p.
Proof.
  intros H. unfold transformed, pixel_at.
  pose proof (H 0 ltac:(lia)) as H0. pose proof (H 1 ltac:(lia)) as H1.
  pose proof (H 2 ltac:(lia)) as H2.
  replace (p + 0) with p in H0 by lia. rewrite H0, H1, H2. reflexivity.
Qed.

(** The inner loop over [n] pixels from column byte [col]. *)
Lemma cols_loop_spec n : forall rowPtr col img,
  0 <= rowPtr + col ->
  rowPtr + col + 4 * Z.of_nat n <= Z.of_nat (length img) ->
  exists img',
    cols_loop body n rowPtr col img = Ok img'
    /\ length img' = length img
    /\ (forall k c, 0 <= k < Z.of_nat n -> 0 <= c < 3 ->
        byte_at img' (rowPtr + col + 4 * k + c)
        = chan c (transformed f img (rowPtr + col + 4 * k)))
    /\ (forall j, 0 <= j ->
        (forall k c, 0 <= k < Z.of_nat n -> 0 <= c < 3 ->
                     j <> rowPtr + col + 4 * k + c) ->
        byte_at img' j = byte_at img j).
Proof.
  induction n as [|n IH]; intros rowPtr col img Hlo Hhi.
  - exists img. cbn [cols_loop]. split; [reflexivity|]. split; [reflexivity|].
    split; [intros; lia | reflexivity].
  - cbn [cols_loop].
    destruct (pixel_step_spec img (rowPtr + col) ltac:(lia) ltac:(lia))
      as (img1 & E1 & L1 & A1 & B1).
    rewrite E1. cbn [mbind result_bind].
    destruct (IH rowPtr (col + 4) img1 ltac:(lia) ltac:(rewrite L1; lia))
      as (img2 & E2 & L2 & A2 & B2).
    exists img2. split; [exact E2|]. split; [congruence|]. split.
    + intros k c Hk Hc.
      destruct (Z.eq_dec k 0) as [-> | Hk0].
      * replace (rowPtr + col + 4 * 0) with (rowPtr + col) by lia.
        rewrite B2; [apply A1; lia | lia |].
        intros k' c' Hk' Hc'. lia.
      * replace (rowPtr + col + 4 * k) with (rowPtr + (col + 4) + 4 * (k - 1)) by lia.
        rewrite A2 by lia. f_equal. apply transformed_ext.
        intros c' Hc'. apply B1; lia.
    + intros j Hj Hout.
      rewrite B2; [apply B1; [lia|] | lia |].
      * destruct (Z_lt_dec j (rowPtr + col)); [left; lia|].
        destruct (Z_le_dec (rowPtr + col + 3) j); [right; lia|].
        exfalso. apply (Hout 0 (j - (rowPtr + col))); lia.
      * intros k c Hk Hc Heq. apply (Hout (k + 1) c); lia.
Qed.

Lemma col_count_exact width :
  0 <= width -> 4 * width < size_max ->
  Z.to_nat ((size_mul width 4 + 3) / 4) = Z.to_nat width.
Proof.
  intros Hw Hlt. unfold size_mul.
  rewrite Z.mod_small by lia. f_equal.
  replace (width * 4 + 3) with (3 + width * 4) by lia.
  rewrite Z.div_add by lia. reflexivity.
Qed.

Lemma rows_loop_spec width stride n : forall row0 img,
  0 <= row0 -> 0 <= width -> 4 * width <= stride ->
  Z.of_nat (length img) < size_max ->
  (0 < Z.of_nat n -> 0 < width ->
   stride * (row0 + Z.of_nat n - 1) + 4 * width <= Z.of_nat (length img)) ->
  exists img',
    rows_loop body n row0 (size_mul width 4) stride img = Ok img'
    /\ length img' = length img
    /\ (forall row k c,
          row0 <= row < row0 + Z.of_nat n -> 0 <= k < width -> 0 <= c < 3 ->
          byte_at img' (stride * row + 4 * k + c)
          = chan c (transformed f img (stride * row + 4 * k)))
    /\ (forall j, 0 <= j ->
          (forall row k c,
             row0 <= row < row0 + Z.of_nat n -> 0 <= k < width ->
             0 <= c < 3 -> j <> stride * row + 4 * k + c) ->
          byte_at img' j = byte_at img j).
Proof.
  induction n as [|n IH]; intros row0 img Hrow Hw Hstride Hsize Hfit.
  - exists img. cbn [rows_loop]. split; [reflexivity|]. split; [reflexivity|].
    split; [intros; lia | reflexivity].
  - cbn [rows_loop].
    destruct (Z.eq_dec width 0) as [-> | Hw0].
    + (* no pixel in a row *)
      change (Z.to_nat ((size_mul 0 4 + 3) / 4)) with 0%nat.
      cbn [cols_loop mbind result_bind].
      destruct (IH (row0 + 1) img ltac:(lia) ltac:(lia) ltac:(lia) ltac:(lia)
                  ltac:(lia)) as (img2 & E2 & L2 & A2 & B2).
      exists img2. split; [exact E2|]. split; [exact L2|].
      split; [intros; lia|]. intros j Hj _. apply B2; [lia|]. intros; lia.
    + assert (Hfit' : stride * (row0 + Z.of_nat (S n) - 1) + 4 * width
                      <= Z.of_nat (length img)) by (apply Hfit; lia).
      assert (Hr0 : 0 <= stride * row0) by nia.
      assert (Hrn : stride * row0 <= stride * (row0 + Z.of_nat (S n) - 1)) by nia.
      rewrite col_count_exact by lia.
      assert (Hrp : size_mul stride row0 = stride * row0)
        by (unfold size_mul; apply Z.mod_small; lia).
      rewrite Hrp.
      destruct (cols_loop_spec (Z.to_nat width) (stride * row0) 0 img
                  ltac:(lia) ltac:(lia)) as (img1 & E1 & L1 & A1 & B1).
      rewrite E1. cbn [mbind result_bind].
      destruct (IH (row0 + 1) img1 ltac:(lia) ltac:(lia) ltac:(lia)
                  ltac:(rewrite L1; lia)
                  ltac:(rewrite L1; intros;
                        replace (row0 + 1 + Z.of_nat n - 1)
                          with (row0 + Z.of_nat (S n) - 1) by lia; lia))
        as (img2 & E2 & L2 & A2 & B2).
      exists img2. split; [exact E2|]. split; [congruence|]. split.
      * intros row k c Hr Hk Hc.
        destruct (Z.eq_dec row row0) as [-> | Hne].
        -- rewrite B2.
           ++ replace (stride * row0 + 4 * k + c)
                with (stride * row0 + 0 + 4 * k + c) by lia.
              rewrite A1 by lia. do 2 f_equal. lia.
           ++ nia.
           ++ intros row' k' c' Hr' Hk' Hc'. nia.
        -- rewrite A2 by lia. f_equal. apply transformed_ext.
           intros c' Hc'. apply B1; [nia|].
           intros k' c'' Hk' Hc''. nia.
      * intros j Hj Hout. rewrite B2; [apply B1; [lia|] | lia |].
        -- intros k c Hk Hc Heq. apply (Hout row0 k c); lia.
        -- intros row k c Hr Hk Hc. apply Hout; lia.
Qed.

Lemma walk_spec img width height bytesPerRow :
  geometry_ok img width height bytesPerRow ->
  exists img',
    walk body img width height bytesPerRow = Ok img'
    /\ walked f img width height (stride_of width bytesPerRow) img'.
Proof.
  intros (Hw & Hh & Hstride & Hsize & Hfit). unfold walk.
  destruct (Z.eq_dec height 0) as [-> | Hh0].
  - exists img. cbn [Z.to_nat rows_loop]. split; [reflexivity|].
    split; [reflexivity|]. split; [intros; lia | reflexivity].
  - assert (Hw4 : 4 * width < size_max).
    { destruct (Z.eq_dec width 0) as [-> | Hw0]; [reflexivity|].
      assert (0 <= stride_of width bytesPerRow * (height - 1)) by nia.
      specialize (Hfit ltac:(lia) ltac:(lia)). lia. }
    assert (Hs : (if bytesPerRow =? 0 then size_mul width 4 else bytesPerRow)
                 = stride_of width bytesPerRow).
    { unfold stride_of, size_mul. destruct (bytesPerRow =? 0); [|reflexivity].
      rewrite Z.mod_small by lia. lia. }
    rewrite Hs.
    destruct (rows_loop_spec width (stride_of width bytesPerRow)
                (Z.to_nat height) 0 img ltac:(lia) Hw Hstride Hsize
                ltac:(intros; rewrite Z2Nat.id by lia; apply Hfit; lia))
      as (img' & E & L & A & B).
    exists img'. split; [exact E|]. split; [exact L|]. split.
    + intros row k c Hr Hk Hc. rewrite A by lia. reflexivity.
    + intros j Hj Hout. apply B; [lia|].
      intros row k c Hr Hk Hc. apply Hout; lia.
Qed.

(** The fourth byte of a pixel is none of the colour bytes of any pixel. *)
Lemma alpha_not_colour width height stride row k :
  4 * width <= stride -> 0 <= row < height -> 0 <= k < width ->
  forall row' k' c,
    0 <= row' < height -> 0 <= k' < width -> 0 <= c < 3 ->
    stride * row + 4 * k + 3 <> stride * row' + 4 * k' + c.
Proof.
  intros Hs Hr Hk row' k' c Hr' Hk' Hc.
  destruct (Z.lt_trichotomy row row') as [Hlt | [-> | Hgt]]; nia.
Qed.

(** A byte at or after [4 * width] in its row is none of the colour bytes. *)
Lemma padding_not_colour width height stride row q :
  4 * width <= stride -> 0 <= row < height -> 4 * width <= q < stride ->
  forall row' k' c,
    0 <= row' < height -> 0 <= k' < width -> 0 <= c < 3 ->
    stride * row + q <> stride * row' + 4 * k' + c.
Proof.
  intros Hs Hr Hq row' k' c Hr' Hk' Hc.
  destruct (Z.lt_trichotomy row row') as [Hlt | [-> | Hgt]]; nia.
Qed.
End WalkProofs.

Lemma rows_without_columns body n : forall row width4 bytesPerRow img,
  Z.to_nat ((width4 + 3) / 4) = 0%nat ->
  rows_loop body n row width4 bytesPerRow img = Ok img.
Proof.
  induction n as [|n IH]; intros row width4 bytesPerRow img H0;
    cbn [rows_loop]; [reflexivity|].
  rewrite H0. cbn [cols_loop mbind result_bind]. apply IH. exact H0.
Qed.

(** ** The walk as a list of visits *)

Section Schedule.
Variable body : Z -> Z -> Z -> result (Z * Z * Z).

Lemma visit_fault (f : fault) (l : list Z) :
  foldl (visit body) (Fault f) l = Fault f.
Proof. induction l as [|p l IH]; [reflexivity | exact IH]. Qed.

Lemma cols_loop_visits (n : nat) : forall rowPtr c0 img,
  cols_loop body n rowPtr (4 * c0) img
  = foldl (visit body) (Ok img)
      ((fun k => rowPtr + 4 * k) <$> seqZ c0 (Z.of_nat n)).
Proof.
  induction n as [|n IH]; intros rowPtr c0 img; [reflexivity|].
  rewrite seqZ_cons by lia.
  replace (Z.pred (Z.of_nat (S n))) with (Z.of_nat n) by lia.
  cbn [cols_loop fmap list_fmap foldl]. unfold visit at 2.
  cbn [mbind result_bind].
  destruct (pixel_step body img (rowPtr + 4 * c0)) as [img'|f];
    cbn [mbind result_bind].
  - replace (4 * c0 + 4) with (4 * Z.succ c0) by lia. apply IH.
  - symmetry. apply visit_fault.
Qed.

Lemma rows_loop_visits (width stride : Z) (n : nat) : forall row0 img,
  0 < width -> 4 * width < size_max -> 0 <= row0 -> 0 <= stride ->
  (0 < Z.of_nat n -> stride * (row0 + Z.of_nat n - 1) < size_max) ->
  rows_loop body n row0 (size_mul width 4) stride img
  = foldl (visit body) (Ok img)
      (row ← seqZ row0 (Z.of_nat n);
       (fun k => stride * row + 4 * k) <$> seqZ 0 width).
Proof.
  induction n as [|n IH]; intros row0 img Hw Hw4 Hrow Hs Hfit;
    [reflexivity|].
  rewrite (seqZ_cons row0) by lia.
  replace (Z.pred (Z.of_nat (S n))) with (Z.of_nat n) by lia.
  rewrite bind_cons, foldl_app. cbn [rows_loop].
  specialize (Hfit ltac:(lia)).
  rewrite col_count_exact by lia.
  assert (Hrp : size_mul stride row0 = stride * row0)
    by (unfold size_mul; apply Z.mod_small; nia).
  rewrite Hrp. change 0 with (4 * 0) at 1.
  rewrite cols_loop_visits, Z2Nat.id by lia.
  destruct (foldl (visit body) (Ok img) _) as [img'|f] eqn:E;
    cbn [mbind result_bind].
  - apply IH; lia.
  - symmetry. apply visit_fault.
Qed.

Lemma walk_visits img width height bytesPerRow :
  geometry_ok img width height bytesPerRow ->
  walk body img width height bytesPerRow
  = foldl (visit body) (Ok img)
      (pixel_offsets width height (stride_of width bytesPerRow)).
Proof.
  intros (Hw & Hh & Hstride & Hsize & Hfit). unfold walk, pixel_offsets.
  destruct (Z.eq_dec width 0) as [-> | Hw0].
  - rewrite rows_without_columns by reflexivity.
    generalize (seqZ 0 height). intros l. induction l as [|r l IH];
      [reflexivity|]. rewrite bind_cons. exact IH.
  - destruct (Z.eq_dec height 0) as [-> | Hh0]; [reflexivity|].
    specialize (Hfit ltac:(lia) ltac:(lia)).
    assert (0 <= stride_of width bytesPerRow * (height - 1)) by nia.
    assert (Hs : (if bytesPerRow =? 0 then size_mul width 4 else bytesPerRow)
                 = stride_of width bytesPerRow).
    { unfold stride_of, size_mul. destruct (bytesPerRow =? 0); [|reflexivity].
      rewrite Z.mod_small by lia. lia. }
    rewrite Hs.
    rewrite <- (Z2Nat.id height) at 2 by lia.
    apply rows_loop_visits; try lia.
Qed.

Lemma elem_of_pixel_offsets (width height stride p : Z) :
  p ∈ pixel_offsets width height stride
  <-> exists row k,
        0 <= row < height /\ 0 <= k < width /\ p = stride * row + 4 * k.
Proof.
  unfold pixel_offsets. rewrite list_elem_of_bind. split.
  - intros (row & Hp & Hrow). apply list_elem_of_fmap in Hp.
    destruct Hp as (k & -> & Hk).
    apply elem_of_seqZ in Hrow, Hk. exists row, k. lia.
  - intros (row & k & Hrow & Hk & ->). exists row. split.
    + apply list_elem_of_fmap. exists k. split; [reflexivity|].
      apply elem_of_seqZ. lia.
    + apply elem_of_seqZ. lia.
Qed.

Lemma pixel_offsets_NoDup (width height stride : Z) :
  0 <= width -> 4 * width <= stride ->
  NoDup (pixel_offsets width height stride).
Proof.
  intros Hw Hs. unfold pixel_offsets. apply NoDup_bind.
  - intros r1 r2 p Hr1 Hr2 Hp1 Hp2.
    apply elem_of_seqZ in Hr1, Hr2.
    apply list_elem_of_fmap in Hp1, Hp2.
    destruct Hp1 as (k1 & -> & Hk1), Hp2 as (k2 & E & Hk2).
    apply elem_of_seqZ in Hk1, Hk2.
    destruct (Z.lt_trichotomy r1 r2) as [Hlt | [-> | Hgt]]; nia.
  - intros row _. apply NoDup_fmap_2_strong; [|apply NoDup_seqZ].
    intros k1 k2 _ _ E. lia.
  - apply NoDup_seqZ.
Qed.
End Schedule.

(** ** The entry points on a well-formed call *)

Lemma brettel_params_enum (d : DLDeficiency) :
  brettel_params (enum_value d) = Some (brettel_table d).
Proof. destruct d; reflexivity. Qed.

Lemma vienot_table_enum (d : DLDeficiency) :
  vienot_table (enum_value d) = Some (vienot_matrix d).
Proof. destruct d; reflexivity. Qed.

Lemma brettel_body_total powf ep d severity r g b :
  uses_brettel ep d = true ->
  brettel_body powf (brettel_params (enum_value d)) severity r g b
  = Ok (pixel_fun powf ep d severity r g b).
Proof.
  intros Hu. rewrite brettel_params_enum.
  unfold brettel_body, pixel_fun, matrix_for. rewrite Hu. reflexivity.
Qed.

Lemma vienot_body_total powf ep d severity r g b :
  uses_brettel ep d = false ->
  vienot_body powf (vienot_table (enum_value d)) severity r g b
  = Ok (pixel_fun powf ep d severity r g b).
Proof.
  intros Hu. rewrite vienot_table_enum.
  unfold vienot_body, pixel_fun, matrix_for. rewrite Hu. reflexivity.
Qed.

(** Each entry point is the walk with the transform [uses_brettel] names. *)
Lemma run_unfold powf ep d severity img width height bytesPerRow :
  run powf ep (enum_value d) severity img width height bytesPerRow
  = if uses_brettel ep d
    then walk (brettel_body powf (brettel_params (enum_value d)) severity)
           img width height bytesPerRow
    else walk (vienot_body powf (vienot_table (enum_value d)) severity)
           img width height bytesPerRow.
Proof. destruct ep, d; reflexivity. Qed.

Lemma run_spec powf ep d severity img width height bytesPerRow :
  geometry_ok img width height bytesPerRow ->
  exists img',
    run powf ep (enum_value d) severity img width height bytesPerRow = Ok img'
    /\ walked (pixel_fun powf ep d severity) img width height
         (stride_of width bytesPerRow) img'.
Proof.
  intros Hgeo. rewrite run_unfold.
  destruct (uses_brettel ep d) eqn:Hu.
  - apply (walk_spec _ (pixel_fun powf ep d severity)); [|exact Hgeo].
    intros r g b. apply brettel_body_total. exact Hu.
  - apply (walk_spec _ (pixel_fun powf ep d severity)); [|exact Hgeo].
    intros r g b. apply vienot_body_total. exact Hu.
Qed.

Lemma run_entry_body powf ep d severity img width height bytesPerRow :
  run powf ep (enum_value d) severity img width height bytesPerRow
  = walk (entry_body powf ep d severity) img width height bytesPerRow.
Proof.
  rewrite run_unfold. unfold entry_body.
  destruct (uses_brettel ep d); reflexivity.
Qed.

Lemma byte_at_range (img : list Z) (i : Z) :
  bytes_ok img -> 0 <= byte_at img i < 256.
Proof.
  intros Hb. unfold byte_at.
  destruct (img !! Z.to_nat i) as [v|] eqn:E; cbn [default]; [|lia].
  exact (proj1 (Forall_lookup _ _) Hb _ _ E).
Qed.

Lemma powf_ref_accurate : powf_accurate Libm.powf_ref.
Proof. intros x y _ _. right. right. left. reflexivity. Qed.

(** The reference [powf] on powers that are binary32 numbers: 4^0.5, 2^3,
    10^2, 0.25^0.5, 2^-1, 1^2.4. *)
Example powf_ref_exact_powers :
  Libm.powf_ref (F32.of_Z 4) c_0_5 = F32.of_Z 2
  /\ Libm.powf_ref (F32.of_Z 2) (F32.of_Z 3) = F32.of_Z 8
  /\ Libm.powf_ref (F32.of_Z 10) (F32.of_Z 2) = F32.of_Z 100
  /\ Libm.powf_ref (flit false 25 2) c_0_5 = c_0_5
  /\ Libm.powf_ref (F32.of_Z 2) (F32.of_Z (-1)) = c_0_5
  /\ Libm.powf_ref F32.one c_2_4 = F32.one.
Proof. repeat split; vm_compute; reflexivity. Qed.

(** ** Dispatcher *)

(** C1. [dl_simulate_cvd] returns exactly what
    [dl_simulate_cvd_brettel1997] returns for Tritan, and exactly what
    [dl_simulate_cvd_vienot1999] returns for Protan and for Deutan, whatever
    the severity, the buffer and its geometry. *)
Theorem dispatch_by_deficiency :
  forall powf severity img width height bytesPerRow,
    dl_simulate_cvd powf (enum_value DLDeficiency_Tritan) severity img
      width height bytesPerRow
    = dl_simulate_cvd_brettel1997 powf (enum_value DLDeficiency_Tritan)
        severity img width height bytesPerRow
    /\ dl_simulate_cvd powf (enum_value DLDeficiency_Protan) severity img
         width height bytesPerRow
       = dl_simulate_cvd_vienot1999 powf (enum_value DLDeficiency_Protan)
           severity img width height bytesPerRow
    /\ dl_simulate_cvd powf (enum_value DLDeficiency_Deutan) severity img
         width height bytesPerRow
       = dl_simulate_cvd_vienot1999 powf (enum_value DLDeficiency_Deutan)
           severity img width height bytesPerRow.
Proof.
  intros. unfold dl_simulate_cvd. cbn [enum_value].
  repeat split; reflexivity.
Qed.

(** ** Channel codec *)

(** C2. At the linear value 0.5 the encoder returns 187, the truncation of
    187.5..., where adding 0.5 before truncating, as the linear segment does,
    gives 188: the power segment adds [0.f], not [0.5f]. *)
Theorem power_segment_truncates :
  forall powf,
    powf_accurate powf ->
    sRGB_from_linearRGB powf c_0_5 = 187
    /\ encode_power_segment_rounded (powf c_0_5 c_inv_2_4) = 188.
Proof.
  intros powf Hp.
  assert (Hin : In (powf c_0_5 c_inv_2_4)
                  (Libm.neighbours (Libm.powf_ref c_0_5 c_inv_2_4)))
    by (apply Hp; [reflexivity | right; reflexivity]).
  assert (Hs : sRGB_from_linearRGB powf c_0_5
               = encode_power_segment (powf c_0_5 c_inv_2_4)) by reflexivity.
  rewrite Hs. clear Hs.
  revert Hin. generalize (powf c_0_5 c_inv_2_4). intros p Hin.
  assert (Hall : forallb
             (fun p => (encode_power_segment p =? 187)
                       && (encode_power_segment_rounded p =? 188))
             (Libm.neighbours (Libm.powf_ref c_0_5 c_inv_2_4)) = true)
    by (vm_compute; reflexivity).
  rewrite forallb_forall in Hall. specialize (Hall p Hin).
  apply andb_true_iff in Hall. destruct Hall as [H1 H2].
  apply Z.eqb_eq in H1, H2. split; assumption.
Qed.

Lemma power_segment_truncates_witness :
  sRGB_from_linearRGB Libm.powf_ref c_0_5 = 187
  /\ encode_power_segment_rounded (Libm.powf_ref c_0_5 c_inv_2_4) = 188.
Proof.
  apply (power_segment_truncates Libm.powf_ref).
  intros x y _ _. right. right. left. reflexivity.
Defined.

(** C3. With an accurate [powf], encoding the decoded value of a byte [v]
    gives [v - 1], [v] or [v + 1], and the round trip is non-decreasing in
    [v]. *)
Theorem codec_round_trip :
  forall powf,
    powf_accurate powf ->
    forall v w, 0 <= v < 256 -> 0 <= w < 256 ->
    let rt x := sRGB_from_linearRGB powf (linearRGB_from_sRGB powf x) in
    (rt v = v - 1 \/ rt v = v \/ rt v = v + 1)
    /\ (v <= w -> rt v <= rt w).
Proof.
  intros powf Hp v w Hv Hw rt. subst rt. cbv beta.
  destruct (byte_facts powf Hp v Hv) as (_ & _ & Hrv).
  destruct (byte_facts powf Hp w Hw) as (_ & _ & Hrw).
  split; [lia|]. intros Hle.
  destruct (Z.eq_dec v w) as [-> | Hne]; lia.
Qed.

Lemma codec_round_trip_witness :
  let rt x :=
    sRGB_from_linearRGB Libm.powf_ref (linearRGB_from_sRGB Libm.powf_ref x) in
  (rt 128 = 128 - 1 \/ rt 128 = 128 \/ rt 128 = 128 + 1)
  /\ (128 <= 129 -> rt 128 <= rt 129).
Proof.
  apply (codec_round_trip Libm.powf_ref); [|lia|lia].
  intros x y _ _. right. right. left. reflexivity.
Defined.

(** ** Severity 0 and severity 1 *)

(** C4. With an accurate [powf], on a well-formed call on a buffer of bytes
    and for each of the three entry points and deficiencies: at severity 0.0
    every colour byte of every pixel ends within 1 of its original value; at
    severity 1.0 every pixel receives the full simulated colour. *)
Theorem severity_zero_and_one :
  forall powf,
    powf_accurate powf ->
    forall ep d img width height bytesPerRow,
    geometry_ok img width height bytesPerRow -> bytes_ok img ->
    (exists img0,
       run powf ep (enum_value d) F32.zero img width height bytesPerRow
       = Ok img0
       /\ forall row k c,
            0 <= row < height -> 0 <= k < width -> 0 <= c < 3 ->
            let i := stride_of width bytesPerRow * row + 4 * k + c in
            Z.abs (byte_at img0 i - byte_at img i) <= 1)
    /\ (exists img1,
          run powf ep (enum_value d) F32.one img width height bytesPerRow
          = Ok img1
          /\ forall row k c,
               0 <= row < height -> 0 <= k < width -> 0 <= c < 3 ->
               let p := stride_of width bytesPerRow * row + 4 * k in
               byte_at img1 (p + c)
               = chan c (transformed (full_colour powf ep d) img p)).
Proof.
  intros powf Hp ep d img width height bytesPerRow Hgeo Hbytes. split.
  - destruct (run_spec powf ep d F32.zero img width height bytesPerRow Hgeo)
      as (img0 & Hrun & _ & Hpix & _).
    exists img0. split; [exact Hrun|].
    intros row k c Hrow Hk Hc i. subst i.
    rewrite (Hpix row k c Hrow Hk Hc). unfold transformed, pixel_at.
    set (p := stride_of width bytesPerRow * row + 4 * k).
    pose proof (byte_at_range img p Hbytes) as Hr.
    pose proof (byte_at_range img (p + 1) Hbytes) as Hg.
    pose proof (byte_at_range img (p + 2) Hbytes) as Hb.
    rewrite (pixel_fun_zero powf Hp ep d _ _ _ Hr Hg Hb).
    unfold round_trip, chan.
    destruct (byte_facts powf Hp _ Hr) as (_ & _ & Fr).
    destruct (byte_facts powf Hp _ Hg) as (_ & _ & Fg).
    destruct (byte_facts powf Hp _ Hb) as (_ & _ & Fb).
    assert (c = 0 \/ c = 1 \/ c = 2) as [-> | [-> | ->]] by lia;
      cbn [Z.eqb Pos.eqb]; rewrite ?Z.add_0_r; lia.
  - destruct (run_spec powf ep d F32.one img width height bytesPerRow Hgeo)
      as (img1 & Hrun & _ & Hpix & _).
    exists img1. split; [exact Hrun|].
    intros row k c Hrow Hk Hc p. subst p.
    rewrite (Hpix row k c Hrow Hk Hc). unfold transformed, pixel_at.
    set (p := stride_of width bytesPerRow * row + 4 * k).
    rewrite (pixel_fun_one powf Hp ep d)
      by (apply byte_at_range; exact Hbytes).
    reflexivity.
Qed.

Lemma severity_zero_and_one_witness :
  (exists img0,
     run Libm.powf_ref Entry_simulate (enum_value DLDeficiency_Tritan)
       F32.zero [200; 30; 40; 255] 1 1 0 = Ok img0
     /\ forall row k c,
          0 <= row < 1 -> 0 <= k < 1 -> 0 <= c < 3 ->
          let i := stride_of 1 0 * row + 4 * k + c in
          Z.abs (byte_at img0 i - byte_at [200; 30; 40; 255] i) <= 1)
  /\ (exists img1,
        run Libm.powf_ref Entry_simulate (enum_value DLDeficiency_Tritan)
          F32.one [200; 30; 40; 255] 1 1 0 = Ok img1
        /\ forall row k c,
             0 <= row < 1 -> 0 <= k < 1 -> 0 <= c < 3 ->
             let p := stride_of 1 0 * row + 4 * k in
             byte_at img1 (p + c)
             = chan c (transformed
                         (full_colour Libm.powf_ref Entry_simulate
                            DLDeficiency_Tritan)
                         [200; 30; 40; 255] p)).
Proof.
  apply (severity_zero_and_one Libm.powf_ref).
  - intros x y _ _. right. right. left. reflexivity.
  - unfold geometry_ok, stride_of, size_max. cbn [Z.eqb length].
    repeat split; intros; lia.
  - unfold bytes_ok. repeat constructor; lia.
Defined.

(** ** Brettel plane selection *)



(** ** Alpha and the buffer walk *)

(** C6. On a well-formed call, each of the three entry points returns a
    buffer of the same length in which the fourth byte of every pixel is the
    one it was, for every deficiency and severity. *)
Theorem alpha_preserved :
  forall powf ep d severity img width height bytesPerRow,
    geometry_ok img width height bytesPerRow ->
    exists img',
      run powf ep (enum_value d) severity img width height bytesPerRow
      = Ok img'
      /\ length img' = length img
      /\ forall row k,
           0 <= row < height -> 0 <= k < width ->
           let a := stride_of width bytesPerRow * row + 4 * k + 3 in
           byte_at img' a = byte_at img a.
Proof.
  intros powf ep d severity img width height bytesPerRow Hgeo.
  destruct (run_spec powf ep d severity img width height bytesPerRow Hgeo)
    as (img' & Hrun & Hlen & _ & Hframe).
  exists img'. split; [exact Hrun|]. split; [exact Hlen|].
  intros row k Hrow Hk a. subst a.
  destruct Hgeo as (Hw & Hh & Hstride & _).
  apply Hframe; [nia|].
  apply (alpha_not_colour width height); assumption.
Qed.

Lemma alpha_preserved_witness :
  exists img',
    run Libm.powf_ref Entry_vienot1999 (enum_value DLDeficiency_Protan)
      F32.one [10; 20; 30; 40; 7; 7; 50; 60; 70; 80] 1 2 6 = Ok img'
    /\ length img' = length [10; 20; 30; 40; 7; 7; 50; 60; 70; 80]
    /\ forall row k,
         0 <= row < 2 -> 0 <= k < 1 ->
         let a := stride_of 1 6 * row + 4 * k + 3 in
         byte_at img' a = byte_at [10; 20; 30; 40; 7; 7; 50; 60; 70; 80] a.
Proof.
  apply (alpha_preserved Libm.powf_ref Entry_vienot1999 DLDeficiency_Protan
           F32.one [10; 20; 30; 40; 7; 7; 50; 60; 70; 80] 1 2 6).
  unfold geometry_ok, stride_of, size_max. cbn [Z.eqb length].
  repeat split; intros; lia.
Defined.

Lemma run_default_stride powf ep deficiency severity img width height :
  run powf ep deficiency severity img width height 0
  = run powf ep deficiency severity img width height (size_mul width 4).
Proof.
  assert (Hw : forall body,
             walk body img width height 0
             = walk body img width height (size_mul width 4)).
  { intros body. unfold walk. cbn [Z.eqb].
    destruct (size_mul width 4 =? 0); reflexivity. }
  destruct ep; cbn [run]; unfold dl_simulate_cvd,
    dl_simulate_cvd_brettel1997, dl_simulate_cvd_vienot1999;
    try destruct (deficiency =? enum_value DLDeficiency_Tritan); apply Hw.
Qed.

(** C7. Every entry point run with [bytesPerRow = 0] does what it does with
    [bytesPerRow = width * 4].  On a well-formed call it visits the pixels in
    row-major order, each of the [width * height] pixels once and none
    twice; it returns a buffer in which the colour bytes of each pixel are
    the transform of their former values, every byte that is not a colour
    byte of one of these pixels is unchanged, and in particular the bytes of
    a row from [width * 4] up to the stride are unchanged. *)
Theorem walk_is_total_scan :
  forall powf ep d severity img width height bytesPerRow,
    geometry_ok img width height bytesPerRow ->
    let stride := stride_of width bytesPerRow in
    run powf ep (enum_value d) severity img width height 0
    = run powf ep (enum_value d) severity img width height
        (size_mul width 4)
    /\ stride_of width 0 = 4 * width
    /\ run powf ep (enum_value d) severity img width height bytesPerRow
       = foldl (visit (entry_body powf ep d severity)) (Ok img)
           (pixel_offsets width height stride)
    /\ NoDup (pixel_offsets width height stride)
    /\ (forall p,
          p ∈ pixel_offsets width height stride
          <-> exists row k,
                0 <= row < height /\ 0 <= k < width
                /\ p = stride * row + 4 * k)
    /\ exists img',
         run powf ep (enum_value d) severity img width height bytesPerRow
         = Ok img'
         /\ walked (pixel_fun powf ep d severity) img width height stride
              img'
         /\ forall row q,
              0 <= row < height -> 4 * width <= q < stride ->
              byte_at img' (stride * row + q) = byte_at img (stride * row + q).
Proof.
  intros powf ep d severity img width height bytesPerRow Hgeo stride.
  split; [apply run_default_stride|]. split; [reflexivity|].
  split; [rewrite run_entry_body; apply walk_visits; exact Hgeo|].
  assert (Hw : 0 <= width) by apply Hgeo.
  assert (Hstride : 4 * width <= stride) by apply Hgeo.
  split; [apply pixel_offsets_NoDup; assumption|].
  split; [intros p; apply elem_of_pixel_offsets|].
  destruct (run_spec powf ep d severity img width height bytesPerRow Hgeo)
    as (img' & Hrun & Hwalked).
  exists img'. split; [exact Hrun|]. split; [exact Hwalked|].
  intros row q Hrow Hq.
  destruct Hwalked as (_ & _ & Hframe).
  apply Hframe; [nia|].
  apply (padding_not_colour width height); assumption.
Qed.

Lemma walk_is_total_scan_witness :
  let img := [10; 20; 30; 40; 7; 7; 50; 60; 70; 80] in
  let run' :=
    run Libm.powf_ref Entry_brettel1997 (enum_value DLDeficiency_Deutan)
      c_0_5 img 1 2 in
  let stride := stride_of 1 6 in
  run' 0 = run' (size_mul 1 4)
  /\ stride_of 1 0 = 4 * 1
  /\ run' 6
     = foldl (visit (entry_body Libm.powf_ref Entry_brettel1997
                       DLDeficiency_Deutan c_0_5)) (Ok img)
         (pixel_offsets 1 2 stride)
  /\ NoDup (pixel_offsets 1 2 stride)
  /\ (forall p,
        p ∈ pixel_offsets 1 2 stride
        <-> exists row k,
              0 <= row < 2 /\ 0 <= k < 1 /\ p = stride * row + 4 * k)
  /\ exists img',
       run' 6 = Ok img'
       /\ walked (pixel_fun Libm.powf_ref Entry_brettel1997
                    DLDeficiency_Deutan c_0_5) img 1 2 stride img'
       /\ forall row q,
            0 <= row < 2 -> 4 * 1 <= q < stride ->
            byte_at img' (stride * row + q) = byte_at img (stride * row + q).
Proof.
  apply (walk_is_total_scan Libm.powf_ref Entry_brettel1997
           DLDeficiency_Deutan c_0_5
           [10; 20; 30; 40; 7; 7; 50; 60; 70; 80] 1 2 6).
  unfold geometry_ok, stride_of, size_max. cbn [Z.eqb length].
  repeat split; intros; lia.
Defined.

(** The two boundary cases, run: a 1x1 buffer, and two rows of one pixel
    with a stride of 6 bytes. *)
Example one_by_one_buffer :
  dl_simulate_cvd Libm.powf_ref (enum_value DLDeficiency_Protan) F32.one
    [200; 30; 40; 255] 1 1 0
  = Ok [78; 78; 42; 255].
Proof. vm_compute. reflexivity. Qed.

Example padded_rows :
  dl_simulate_cvd Libm.powf_ref (enum_value DLDeficiency_Protan) F32.one
    [200; 30; 40; 255; 7; 7; 10; 200; 30; 77] 1 2 6
  = Ok [78; 78; 42; 255; 7; 7; 189; 189; 26; 77].
Proof. vm_compute. reflexivity. Qed.

(** ** The two formulations of the Brettel transform *)

(** C8. On the pixel (2, 6, 0), Protan, severity 1.0, the combined-matrix
    transform (with the tables derived from the same LMS model) writes
    (8, 5, 0) and the explicit-LMS transform writes (7, 5, 0); [powf] is not
    called on this pixel.  The comment of the combined-matrix file says that
    the simplification has the exact same output. *)
Theorem brettel_formulations_differ :
  forall powf,
    SvgTables.dl_simulate_cvd_brettel1997 powf
      (enum_value DLDeficiency_Protan) F32.one [2; 6; 0; 255] 1 1 0
    = Ok [8; 5; 0; 255]
    /\ ExplicitLMS.dl_simulate_cvd_brettel1997 powf
         (enum_value DLDeficiency_Protan) F32.one [2; 6; 0; 255] 1 1 0
       = Ok [7; 5; 0; 255].
Proof. intros powf. split; vm_compute; reflexivity. Qed.

(** The same pixel against the tables of [libDaltonLens.c], and a pixel on
    which these differ from the explicit-LMS transform as well. *)
Example current_tables_against_lms :
  forall powf,
    dl_simulate_cvd_brettel1997 powf (enum_value DLDeficiency_Protan)
      F32.one [2; 6; 0; 255; 0; 4; 7; 255] 2 1 0
    = Ok [7; 5; 0; 255; 2; 4; 7; 255]
    /\ ExplicitLMS.dl_simulate_cvd_brettel1997 powf
         (enum_value DLDeficiency_Protan) F32.one
         [2; 6; 0; 255; 0; 4; 7; 255] 2 1 0
       = Ok [7; 5; 0; 255; 3; 4; 7; 255].
Proof. intros powf. split; vm_compute; reflexivity. Qed.

(** X11. What does hold between the two files: in exact arithmetic, each
    matrix of the combined tables is [rgbFromLms . projection . lmsFromRgb]
    of the explicit-LMS tables within 1/4000 per entry, and each normal is
    [normalInLms . lmsFromRgb] within 1/100000. *)
Lemma combined_tables_are_lms_products :
  forall d, tables_agree d = true.
Proof. intros d. destruct d; vm_compute; reflexivity. Qed.

(** ** A deficiency outside the enumeration *)

Lemma null_table_walk body img width height bytesPerRow :
  (forall r g b, body r g b = Fault NullPointer) ->
  (row_count height = 0%nat \/ col_count width = 0%nat ->
   walk body img width height bytesPerRow = Ok img)
  /\ (row_count height <> 0%nat -> col_count width <> 0%nat ->
      walk body img width height bytesPerRow
      = Fault (if 3 <=? Z.of_nat (length img)
               then NullPointer else OutOfBounds)).
Proof.
  intros Hnull. unfold walk, row_count, col_count. split.
  - intros [H0 | H0].
    + rewrite H0. reflexivity.
    + apply rows_without_columns. exact H0.
  - intros Hr Hc.
    destruct (Z.to_nat height) as [|n]; [congruence|].
    cbn [rows_loop].
    destruct (Z.to_nat ((size_mul width 4 + 3) / 4)) as [|m]; [congruence|].
    cbn [cols_loop].
    assert (Hz : forall s, size_mul s 0 = 0)
      by (intros s; unfold size_mul; rewrite Z.mul_0_r; reflexivity).
    rewrite Hz. change (0 + 0) with 0.
    unfold pixel_step, load. change (Z.to_nat (0 + 0)) with 0%nat.
    change (Z.to_nat (0 + 1)) with 1%nat. change (Z.to_nat (0 + 2)) with 2%nat.
    destruct img as [|a [|b [|c rest]]]; cbn [lookup list_lookup mbind result_bind];
      try reflexivity.
    rewrite Hnull. cbn [mbind result_bind length].
    destruct (3 <=? Z.of_nat (S (S (S (length rest))))) eqn:E;
      [reflexivity | apply Z.leb_gt in E; lia].
Qed.

Lemma run_unchecked powf ep deficiency severity img width height bytesPerRow :
  deficiency <> 0 -> deficiency <> 1 -> deficiency <> 2 ->
  exists body,
    (forall r g b, body r g b = Fault NullPointer)
    /\ run powf ep deficiency severity img width height bytesPerRow
       = walk body img width height bytesPerRow.
Proof.
  intros H0 H1 H2.
  assert (Hb : brettel_params deficiency = None).
  { unfold brettel_params.
    destruct (Z.eqb_spec deficiency 0); [contradiction|].
    destruct (Z.eqb_spec deficiency 1); [contradiction|].
    destruct (Z.eqb_spec deficiency 2); [contradiction|]. reflexivity. }
  assert (Hv : vienot_table deficiency = None).
  { unfold vienot_table.
    destruct (Z.eqb_spec deficiency 0); [contradiction|].
    destruct (Z.eqb_spec deficiency 1); [contradiction|].
    destruct (Z.eqb_spec deficiency 2); [contradiction|]. reflexivity. }
  destruct ep; cbn [run]; unfold dl_simulate_cvd,
    dl_simulate_cvd_brettel1997, dl_simulate_cvd_vienot1999;
    cbn [enum_value];
    try (destruct (Z.eqb_spec deficiency 2); [contradiction|]);
    rewrite ?Hb, ?Hv; eexists; (split; [|reflexivity]);
    intros r g b; reflexivity.
Qed.

(** C9, as the code has it.  No entry point checks the deficiency.  For a
    value other than 0, 1 and 2 no table is selected and the table pointer
    stays null: the call returns normally, the buffer untouched, when the
    image has no pixel; otherwise it stops at the first pixel, on the null
    pointer once the three colour bytes have been read (or on their read
    when the buffer is shorter than three bytes), having written nothing. *)
Theorem unchecked_deficiency :
  forall powf ep deficiency severity img width height bytesPerRow,
    deficiency <> 0 -> deficiency <> 1 -> deficiency <> 2 ->
    (row_count height = 0%nat \/ col_count width = 0%nat ->
     run powf ep deficiency severity img width height bytesPerRow = Ok img)
    /\ (row_count height <> 0%nat -> col_count width <> 0%nat ->
        run powf ep deficiency severity img width height bytesPerRow
        = Fault (if 3 <=? Z.of_nat (length img)
                 then NullPointer else OutOfBounds)).
Proof.
  intros powf ep deficiency severity img width height bytesPerRow H0 H1 H2.
  destruct (run_unchecked powf ep deficiency severity img width height
              bytesPerRow H0 H1 H2) as (body & Hnull & ->).
  apply null_table_walk. exact Hnull.
Qed.

Lemma unchecked_deficiency_witness :
  (row_count 1 = 0%nat \/ col_count 1 = 0%nat ->
   run Libm.powf_ref Entry_simulate 7 F32.one [200; 30; 40; 255] 1 1 0
   = Ok [200; 30; 40; 255])
  /\ (row_count 1 <> 0%nat -> col_count 1 <> 0%nat ->
      run Libm.powf_ref Entry_simulate 7 F32.one [200; 30; 40; 255] 1 1 0
      = Fault (if 3 <=? Z.of_nat (length [200; 30; 40; 255])
               then NullPointer else OutOfBounds)).
Proof.
  apply (unchecked_deficiency Libm.powf_ref Entry_simulate 7 F32.one
           [200; 30; 40; 255] 1 1 0); lia.
Defined.

(** C9, as stated, fails: with a deficiency of 7 and an image without
    pixels each entry point returns normally. *)
Lemma invalid_deficiency_returns :
  run Libm.powf_ref Entry_simulate 7 F32.one [200; 30; 40; 255] 0 1 0
  = Ok [200; 30; 40; 255]
  /\ run Libm.powf_ref Entry_brettel1997 7 F32.one [200; 30; 40; 255] 0 1 0
     = Ok [200; 30; 40; 255]
  /\ run Libm.powf_ref Entry_vienot1999 7 F32.one [200; 30; 40; 255] 0 1 0
     = Ok [200; 30; 40; 255].
Proof. repeat split; vm_compute; reflexivity. Qed.

(** ** Intermediate severities *)


(** The degenerate case fails too: Deutan, grey 148 at severity 0.1 gives
    147, where the original and the result at severity 1.0 are both 148. *)
Example blend_outside_equal_endpoints :
  blend_claim_at Libm.powf_ref Entry_simulate
    (enum_value DLDeficiency_Deutan) (flit false 1 1)
    [148; 148; 148; 255] 0
  = Some false
  /\ dl_simulate_cvd Libm.powf_ref (enum_value DLDeficiency_Deutan)
       (flit false 1 1) [148; 148; 148; 255] 1 1 0
     = Ok [147; 147; 147; 255]
  /\ dl_simulate_cvd Libm.powf_ref (enum_value DLDeficiency_Deutan)
       F32.one [148; 148; 148; 255] 1 1 0
     = Ok [148; 148; 148; 255].
Proof. repeat split; vm_compute; reflexivity. Qed.


(** * Further properties *)

(** ** More on the codec *)

Lemma linear_bytes :
  forall n, In n (seq 0 256) -> linear_byte_check (Z.of_nat n) = true.
Proof.
  apply (proj1 (forallb_forall (fun n => linear_byte_check (Z.of_nat n))
                  (seq 0 256))).
  vm_compute. reflexivity.
Qed.

Lemma linear_byte (v : Z) :
  0 <= v < 256 ->
  F32.ltb (F32.div (F32.of_Z v) c_255) c_0_04045 = (v <=? 10).
Proof.
  intros Hv. pose proof (linear_bytes (Z.to_nat v)) as H.
  rewrite Z2Nat.id in H by lia. apply eqb_prop. apply H. apply in_seq. lia.
Qed.

(** X1. The bytes 0 to 10 are the linear segment of the codec, whatever
    [powf] is: for such a byte the decoder returns [v / 255 / 12.92]
    without calling [powf], and encoding the decoded value gives the byte
    back exactly.  Every other byte is decoded by the call
    [powf ((v / 255 + 0.055) / 1.055, 2.4)]. *)
Theorem linear_segment_is_exact :
  forall powf v,
    0 <= v < 256 ->
    if v <=? 10
    then linearRGB_from_sRGB powf v
         = F32.div (F32.div (F32.of_Z v) c_255) c_12_92f
         /\ sRGB_from_linearRGB powf (linearRGB_from_sRGB powf v) = v
    else linearRGB_from_sRGB powf v = powf (decode_arg v) c_2_4.
Proof.
  intros powf v Hv. pose proof (linear_byte v Hv) as Hl.
  unfold linearRGB_from_sRGB. rewrite Hl.
  destruct (Z.leb_spec v 10) as [H10 | H10]; [|reflexivity].
  split; [reflexivity|].
  assert (Hc : v = 0 \/ v = 1 \/ v = 2 \/ v = 3 \/ v = 4 \/ v = 5 \/ v = 6
               \/ v = 7 \/ v = 8 \/ v = 9 \/ v = 10) by lia.
  repeat (destruct Hc as [-> | Hc]; [vm_compute; reflexivity|]).
  subst v. vm_compute. reflexivity.
Qed.

Lemma linear_segment_is_exact_witness :
  linearRGB_from_sRGB Libm.powf_ref 7
  = F32.div (F32.div (F32.of_Z 7) c_255) c_12_92f
  /\ sRGB_from_linearRGB Libm.powf_ref (linearRGB_from_sRGB Libm.powf_ref 7)
     = 7.
Proof. apply (linear_segment_is_exact Libm.powf_ref 7). lia. Defined.

(** ** Zeros of either sign *)

Lemma alike_refl x : alike x x.
Proof. left. reflexivity. Qed.

Lemma alike_mul_l (a1 a2 r : spec_float) :
  alike a1 a2 -> alike (F32.mul a1 r) (F32.mul a2 r).
Proof.
  intros [-> | [H1 H2]]; [apply alike_refl|].
  destruct a1 as [s1| | |]; try discriminate H1.
  destruct a2 as [s2| | |]; try discriminate H2.
  destruct r as [s | s | | s m e]; cbn;
    first [left; reflexivity | right; split; reflexivity].
Qed.

Lemma alike_mul_r (a1 a2 r : spec_float) :
  alike a1 a2 -> alike (F32.mul r a1) (F32.mul r a2).
Proof.
  intros [-> | [H1 H2]]; [apply alike_refl|].
  destruct a1 as [s1| | |]; try discriminate H1.
  destruct a2 as [s2| | |]; try discriminate H2.
  destruct r as [s | s | | s m e]; cbn;
    first [left; reflexivity | right; split; reflexivity].
Qed.

Lemma alike_add (p1 p2 q1 q2 : spec_float) :
  alike p1 p2 -> alike q1 q2 -> alike (F32.add p1 q1) (F32.add p2 q2).
Proof.
  intros [-> | [H1 H2]] [-> | [H3 H4]]; [apply alike_refl| | |].
  - destruct q1 as [s1| | |]; try discriminate H3.
    destruct q2 as [s2| | |]; try discriminate H4.
    destruct p2 as [s | s | | s m e];
      [right; destruct s, s1, s2; split; reflexivity | left; reflexivity ..].
  - destruct p1 as [s1| | |]; try discriminate H1.
    destruct p2 as [s2| | |]; try discriminate H2.
    destruct q2 as [s | s | | s m e];
      [right; destruct s, s1, s2; split; reflexivity | left; reflexivity ..].
  - destruct p1 as [s1| | |]; try discriminate H1.
    destruct p2 as [s2| | |]; try discriminate H2.
    destruct q1 as [s3| | |]; try discriminate H3.
    destruct q2 as [s4| | |]; try discriminate H4.
    right; destruct s1, s2, s3, s4; split; reflexivity.
Qed.

Lemma alike_encode powf (x y : spec_float) :
  alike x y -> sRGB_from_linearRGB powf x = sRGB_from_linearRGB powf y.
Proof.
  intros [-> | [H1 H2]]; [reflexivity|].
  destruct x as [s1| | |]; try discriminate H1.
  destruct y as [s2| | |]; try discriminate H2.
  rewrite !encode_of_zero. reflexivity.
Qed.

Lemma alike_row_dot (m : list spec_float) (k1 k2 : nat) (r g b : spec_float) :
  rows_alike m k1 k2 -> alike (row_dot m k1 r g b) (row_dot m k2 r g b).
Proof.
  intros (H0 & H1 & H2). unfold row_dot.
  repeat apply alike_add; apply alike_mul_l; assumption.
Qed.

Lemma alike_vienot_blend severity cvd1 cvd2 orig1 orig2 :
  alike cvd1 cvd2 ->
  F32.ltb severity c_0_999 = false \/ orig1 = orig2 ->
  alike (vienot_blend severity cvd1 orig1) (vienot_blend severity cvd2 orig2).
Proof.
  intros H Hs. unfold vienot_blend.
  destruct (F32.ltb severity c_0_999); [|exact H].
  destruct Hs as [Hs | ->]; [discriminate|].
  apply alike_add; [apply alike_mul_r; exact H | apply alike_refl].
Qed.

Ltac alike_entries :=
  repeat split; first [left; reflexivity | right; split; reflexivity].

Lemma vienot_rows_alike (table : Z -> option (list spec_float))
    (deficiency : Z) :
  In table [vienot_table; OtherStates.vienot_table] ->
  0 <= deficiency <= 2 ->
  exists m, table deficiency = Some m
            /\ if deficiency =? 2 then rows_alike m 3 6 else rows_alike m 0 3.
Proof.
  intros Ht Hd.
  assert (Hc : deficiency = 0 \/ deficiency = 1 \/ deficiency = 2) by lia.
  destruct Ht as [<- | [<- | []]]; destruct Hc as [-> | [-> | ->]];
    eexists; (split; [reflexivity|]); alike_entries.
Qed.

(** X2. The Vienot tables, those of [libDaltonLens.c] and those of the two
    other states of the file, hold two rows that are equal up to the sign
    of a zero coefficient: the rows of red and green for Protan and Deutan,
    those of green and blue for Tritan.  So, for every [powf], every pixel
    and every deficiency of the enumeration, the two channels come out
    equal when the severity is not below 0.999, and at any severity when
    they were equal in the source pixel. *)
Theorem vienot_merges_two_channels :
  forall powf table deficiency severity r g b,
    In table [vienot_table; OtherStates.vienot_table] ->
    0 <= deficiency <= 2 ->
    F32.ltb severity c_0_999 = false
    \/ chan (fst (merged_channels deficiency)) (r, g, b)
       = chan (snd (merged_channels deficiency)) (r, g, b) ->
    exists px,
      vienot_body powf (table deficiency) severity r g b = Ok px
      /\ chan (fst (merged_channels deficiency)) px
         = chan (snd (merged_channels deficiency)) px.
Proof.
  intros powf table deficiency severity r g b Ht Hd Hs.
  destruct (vienot_rows_alike table deficiency Ht Hd) as (m & -> & Hrows).
  unfold vienot_body, matrix_blend_encode. eexists. split; [reflexivity|].
  unfold merged_channels in *. cbn [enum_value] in *.
  destruct (deficiency =? 2); cbn [fst snd chan Z.eqb Pos.eqb] in *;
    apply alike_encode, alike_vienot_blend;
    try (apply alike_row_dot; exact Hrows);
    (destruct Hs as [Hs | Hs]; [left; exact Hs | right; rewrite Hs; reflexivity]).
Qed.

Lemma vienot_merges_two_channels_witness :
  exists px,
    vienot_body Libm.powf_ref (vienot_table 0) F32.one 200 30 40 = Ok px
    /\ chan (fst (merged_channels 0)) px = chan (snd (merged_channels 0)) px.
Proof.
  apply (vienot_merges_two_channels Libm.powf_ref vienot_table 0 F32.one
           200 30 40).
  - left. reflexivity.
  - lia.
  - left. reflexivity.
Defined.

(** ** Subtraction, and arithmetic on zeros *)

Lemma sub_bounded (E : Z) (x y : spec_float) :
  bounded_by E x = true -> bounded_by E y = true ->
  -126 <= E <= 126 ->
  bounded_by (E + 2) (F32.sub x y) = true.
Proof.
  intros Hx Hy HE.
  destruct x as [sx | sx | | sx mx ex]; try discriminate Hx;
    destruct y as [sy | sy | | sy my ey]; try discriminate Hy.
  - destruct sx, sy; reflexivity.
  - apply bounded_by_mono with E; [lia | exact Hy].
  - apply bounded_by_mono with E; [lia | exact Hx].
  - cbn [bounded_by] in Hx, Hy. apply andb_true_iff in Hx, Hy.
    destruct Hx as [Hbx Hex], Hy as [Hby Hey]. apply Z.leb_le in Hex, Hey.
    unfold F32.sub, F32.prec, F32.emax. cbn [SFsub].
    set (ez := Z.min ex ey).
    destruct (shl_align_spec mx ex ez) as [_ Hax].
    destruct (shl_align_spec my ey ez) as [_ Hay].
    rewrite Z.min_r in Hax, Hay by (unfold ez; lia).
    pose proof (shifted_mantissa_lt mx ex ez E Hbx Hex ltac:(unfold ez; lia)) as Hlx.
    pose proof (shifted_mantissa_lt my ey ez E Hby Hey ltac:(unfold ez; lia)) as Hly.
    rewrite <- Hax in Hlx. rewrite <- Hay in Hly.
    replace (E + 2) with (E + 1 + 1) by lia.
    apply binary_normalize_bounded; [|lia].
    replace (E + 1 - ez) with (Z.succ (E - ez)) by lia.
    rewrite Z.pow_succ_r by (apply bounded_canonical in Hbx, Hby; unfold ez; lia).
    destruct sx, sy; cbn [cond_Zopp]; lia.
Qed.

Lemma one_minus_bounded (E : Z) (severity : spec_float) :
  bounded_by E severity = true -> 1 <= E <= 126 ->
  bounded_by (E + 2) (F32.sub F32.one severity) = true.
Proof.
  intros Hs HE. apply sub_bounded; [|exact Hs|lia].
  apply bounded_by_mono with 1; [lia | reflexivity].
Qed.

Lemma is_zero_mul_l (z x : spec_float) :
  is_zero z = true -> finite_or_zero x = true -> is_zero (F32.mul z x) = true.
Proof.
  destruct z; try discriminate. destruct x; try discriminate; reflexivity.
Qed.

Lemma is_zero_mul_r (z x : spec_float) :
  is_zero z = true -> finite_or_zero x = true -> is_zero (F32.mul x z) = true.
Proof.
  destruct z; try discriminate. destruct x; try discriminate; reflexivity.
Qed.

Lemma is_zero_add (x y : spec_float) :
  is_zero x = true -> is_zero y = true -> is_zero (F32.add x y) = true.
Proof.
  destruct x as [[|]| | |]; try discriminate;
    destruct y as [[|]| | |]; try discriminate; reflexivity.
Qed.

Lemma is_zero_encode powf (x : spec_float) :
  is_zero x = true -> sRGB_from_linearRGB powf x = 0.
Proof. destruct x; try discriminate. intros _. apply encode_of_zero. Qed.

Lemma entry_finite (m : list spec_float) (k : nat) :
  entries_finite m = true -> (k < length m)%nat ->
  finite_or_zero (at_ m k) = true.
Proof.
  unfold entries_finite, at_. rewrite forallb_forall. intros H Hk.
  apply H. apply nth_In. exact Hk.
Qed.

Lemma row_dot_zero (m : list spec_float) (k : nat) (a b c : spec_float) :
  entries_finite m = true -> (k + 2 < length m)%nat ->
  is_zero a = true -> is_zero b = true -> is_zero c = true ->
  is_zero (row_dot m k a b c) = true.
Proof.
  intros Hm Hk Ha Hb Hc. unfold row_dot.
  repeat apply is_zero_add; apply is_zero_mul_r; try assumption;
    apply entry_finite; try assumption; lia.
Qed.

Lemma brettel_blend_zeros (severity cvd orig : spec_float) :
  bounded_by 126 severity = true ->
  is_zero cvd = true -> is_zero orig = true ->
  is_zero (brettel_blend severity cvd orig) = true.
Proof.
  intros Hs Hc Ho. unfold brettel_blend. apply is_zero_add.
  - apply is_zero_mul_l; [exact Hc|].
    apply bounded_by_finite_or_zero with 126. exact Hs.
  - apply is_zero_mul_l; [exact Ho|].
    apply bounded_by_finite_or_zero with 128.
    apply (one_minus_bounded 126); [exact Hs | lia].
Qed.

Lemma vienot_blend_zeros (severity cvd orig : spec_float) :
  bounded_by 126 severity = true ->
  is_zero cvd = true -> is_zero orig = true ->
  is_zero (vienot_blend severity cvd orig) = true.
Proof.
  intros Hs Hc Ho. unfold vienot_blend.
  destruct (F32.ltb severity c_0_999); [|exact Hc]. apply is_zero_add.
  - apply is_zero_mul_r; [exact Hc|].
    apply bounded_by_finite_or_zero with 126. exact Hs.
  - apply is_zero_mul_r; [exact Ho|].
    apply bounded_by_finite_or_zero with 128.
    apply (one_minus_bounded 126); [exact Hs | lia].
Qed.

(** ** A black pixel *)

Lemma matrix_black powf blend (m : list spec_float) severity :
  (forall cvd orig, is_zero cvd = true -> is_zero orig = true ->
                    is_zero (blend severity cvd orig) = true) ->
  entries_finite m = true -> length m = 9%nat ->
  matrix_blend_encode powf blend m severity F32.zero F32.zero F32.zero
  = (0, 0, 0).
Proof.
  intros Hblend Hm Hlen. unfold matrix_blend_encode.
  rewrite !is_zero_encode; [reflexivity | ..];
    apply Hblend; try reflexivity; apply row_dot_zero;
    try assumption; try reflexivity; lia.
Qed.

Lemma brettel_black powf (params : DLBrettel1997Params) severity :
  bounded_by 126 severity = true ->
  entries_finite (rgbCvdFromRgb_1 params) = true ->
  entries_finite (rgbCvdFromRgb_2 params) = true ->
  length (rgbCvdFromRgb_1 params) = 9%nat ->
  length (rgbCvdFromRgb_2 params) = 9%nat ->
  brettel_body powf (Some params) severity 0 0 0 = Ok (0, 0, 0).
Proof.
  intros Hs H1 H2 L1 L2. unfold brettel_body.
  change (linearRGB_from_sRGB powf 0) with F32.zero. cbv zeta. f_equal.
  unfold brettel_plane.
  destruct (F32.leb _ _); apply matrix_black; try assumption;
    intros cvd orig; apply brettel_blend_zeros; exact Hs.
Qed.

Lemma vienot_black powf (m : list spec_float) severity :
  bounded_by 126 severity = true ->
  entries_finite m = true -> length m = 9%nat ->
  vienot_body powf (Some m) severity 0 0 0 = Ok (0, 0, 0).
Proof.
  intros Hs Hm Hlen. unfold vienot_body.
  change (linearRGB_from_sRGB powf 0) with F32.zero. cbv zeta. f_equal.
  apply matrix_black; try assumption.
  intros cvd orig; apply vienot_blend_zeros; exact Hs.
Qed.

Lemma at_insert_zero (l : list spec_float) (k i : nat) (x : spec_float) :
  Forall (fun y => is_zero y = true) l -> is_zero x = true ->
  (i < length l)%nat ->
  is_zero (at_ (<[k := x]> l) i) = true.
Proof.
  intros Hl Hx Hi. unfold at_.
  assert (Hall : Forall (fun y => is_zero y = true) (<[k := x]> l))
    by (apply Forall_insert; assumption).
  rewrite Forall_forall in Hall. apply Hall.
  apply nth_In. rewrite length_insert. exact Hi.
Qed.

Lemma lms_black powf (params : ExplicitLMS.DLBrettel1997Params) severity :
  bounded_by 126 severity = true ->
  lms_params_finite params = true ->
  ExplicitLMS.brettel_body powf (Some params) severity 0 0 0 = Ok (0, 0, 0).
Proof.
  intros Hs Hp. unfold lms_params_finite in Hp.
  rewrite !andb_true_iff in Hp. destruct Hp as [[[[F1 F2] L1] L2] Hk].
  apply Nat.eqb_eq in L1, L2. apply Nat.ltb_lt in Hk.
  unfold ExplicitLMS.brettel_body.
  change (linearRGB_from_sRGB powf 0) with F32.zero. cbv zeta.
  set (lms := [row_dot ExplicitLMS.LMS_from_linearRGB 0 F32.zero F32.zero F32.zero;
               row_dot ExplicitLMS.LMS_from_linearRGB 3 F32.zero F32.zero F32.zero;
               row_dot ExplicitLMS.LMS_from_linearRGB 6 F32.zero F32.zero F32.zero]).
  assert (Hlms : Forall (fun y => is_zero y = true) lms)
    by (repeat constructor).
  assert (Hat : forall i, (i < 3)%nat -> is_zero (at_ lms i) = true).
  { intros i Hi. unfold at_. rewrite Forall_forall in Hlms. apply Hlms.
    apply nth_In. exact Hi. }
  match goal with
  | |- context [<[?k := ?x]> lms] =>
      assert (Hnew : forall i, (i < 3)%nat ->
                is_zero (at_ (<[k := x]> lms) i) = true)
  end.
  { intros i Hi. apply at_insert_zero; [exact Hlms | | exact Hi].
    apply brettel_blend_zeros; [exact Hs | |].
    - destruct (F32.leb _ _); apply row_dot_zero;
        try assumption; try (apply Hat; lia); lia.
    - apply Hat. exact Hk. }
  f_equal.
  rewrite !is_zero_encode; [reflexivity | ..]; apply row_dot_zero;
    try reflexivity; try (apply Hnew; lia); cbn; lia.
Qed.

(** X3. A black pixel stays black: in the three states of the file, for
    every [powf], every deficiency of the enumeration and every finite
    severity of magnitude below [2^126], the Brettel and the Vienot
    per-pixel computations map the bytes (0, 0, 0) to (0, 0, 0). *)
Theorem black_stays_black :
  forall powf deficiency severity body,
    0 <= deficiency <= 2 ->
    bounded_by 126 severity = true ->
    In body (all_bodies powf deficiency severity) ->
    body 0 0 0 = Ok (0, 0, 0).
Proof.
  intros powf deficiency severity body Hd Hs Hin.
  assert (Hc : deficiency = 0 \/ deficiency = 1 \/ deficiency = 2) by lia.
  unfold all_bodies in Hin.
  destruct Hin as [<- | [<- | [<- | [<- | [<- | []]]]]];
    destruct Hc as [-> | [-> | ->]].
  - apply (brettel_black powf brettel_protan_params); auto.
  - apply (brettel_black powf brettel_deutan_params); auto.
  - apply (brettel_black powf brettel_tritan_params); auto.
  - apply (vienot_black powf dl_vienot_protan_rgbCvd_from_rgb); auto.
  - apply (vienot_black powf dl_vienot_deutan_rgbCvd_from_rgb); auto.
  - apply (vienot_black powf dl_vienot_tritan_rgbCvd_from_rgb); auto.
  - apply (brettel_black powf SvgTables.brettel_protan_params); auto.
  - apply (brettel_black powf SvgTables.brettel_deutan_params); auto.
  - apply (brettel_black powf SvgTables.brettel_tritan_params); auto.
  - apply (lms_black powf ExplicitLMS.brettel_protan_params); auto.
  - apply (lms_black powf ExplicitLMS.brettel_deutan_params); auto.
  - apply (lms_black powf ExplicitLMS.brettel_tritan_params); auto.
  - apply (vienot_black powf OtherStates.dl_vienot_protan_rgbCvd_from_rgb);
      auto.
  - apply (vienot_black powf OtherStates.dl_vienot_deutan_rgbCvd_from_rgb);
      auto.
  - apply (vienot_black powf OtherStates.dl_vienot_tritan_rgbCvd_from_rgb);
      auto.
Qed.

Lemma black_stays_black_witness :
  vienot_body Libm.powf_ref (vienot_table 1) c_0_5 0 0 0 = Ok (0, 0, 0).
Proof.
  apply (black_stays_black Libm.powf_ref 1 c_0_5).
  - lia.
  - reflexivity.
  - right. left. reflexivity.
Defined.

(** ** No overflow *)

Section Finite.
Variable powf : spec_float -> spec_float -> spec_float.
Hypothesis powf_ok : powf_accurate powf.
Variable E : Z.
Hypothesis E_range : 1 <= E <= 116.
Variable severity : spec_float.
Hypothesis severity_bounded : bounded_by E severity = true.

Lemma brettel_blend_bounded (cvd orig : spec_float) :
  bounded_by 7 cvd = true -> bounded_by 1 orig = true ->
  bounded_by (E + 10) (brettel_blend severity cvd orig) = true.
Proof.
  intros Hc Ho. unfold brettel_blend.
  replace (E + 10) with (E + 8 + 2) by lia.
  apply add_bounded; [| |lia].
  - replace (E + 8) with (7 + E + 1) by lia.
    apply mul_bounded; [exact Hc | exact severity_bounded | lia].
  - apply bounded_by_mono with (1 + (E + 2) + 1); [lia|].
    apply mul_bounded; [exact Ho | | lia].
    apply one_minus_bounded; [exact severity_bounded | lia].
Qed.

Lemma vienot_blend_bounded (cvd orig : spec_float) :
  bounded_by 7 cvd = true -> bounded_by 1 orig = true ->
  bounded_by (E + 10) (vienot_blend severity cvd orig) = true.
Proof.
  intros Hc Ho. unfold vienot_blend.
  destruct (F32.ltb severity c_0_999);
    [|apply bounded_by_mono with 7; [lia | exact Hc]].
  replace (E + 10) with (E + 8 + 2) by lia.
  apply add_bounded; [| |lia].
  - replace (E + 8) with (E + 7 + 1) by lia.
    apply mul_bounded; [exact severity_bounded | exact Hc | lia].
  - apply bounded_by_mono with (E + 2 + 1 + 1); [lia|].
    apply mul_bounded; [| exact Ho | lia].
    apply one_minus_bounded; [exact severity_bounded | lia].
Qed.

Lemma encoder_inputs_bounded ep d (r g b : Z) :
  0 <= r < 256 -> 0 <= g < 256 -> 0 <= b < 256 ->
  let '(x0, x1, x2) := encoder_inputs powf ep d severity r g b in
  bounded_by (E + 10) x0 = true /\ bounded_by (E + 10) x1 = true
  /\ bounded_by (E + 10) x2 = true.
Proof.
  intros Hr Hg Hb. unfold encoder_inputs.
  set (m := matrix_for ep d _ _ _).
  assert (Hm : matrix_ok m = true) by apply matrix_for_ok.
  pose proof (row_bounded powf powf_ok m 0 r g b Hm ltac:(auto) Hr Hg Hb) as H0.
  pose proof (row_bounded powf powf_ok m 3 r g b Hm ltac:(auto) Hr Hg Hb) as H3.
  pose proof (row_bounded powf powf_ok m 6 r g b Hm ltac:(auto) Hr Hg Hb) as H6.
  destruct (byte_facts powf powf_ok r Hr) as (_ & Br & _).
  destruct (byte_facts powf powf_ok g Hg) as (_ & Bg & _).
  destruct (byte_facts powf powf_ok b Hb) as (_ & Bb & _).
  destruct (uses_brettel ep d); repeat split;
    first [apply brettel_blend_bounded | apply vienot_blend_bounded];
    assumption.
Qed.
End Finite.

Lemma entry_body_inputs powf ep d severity r g b :
  entry_body powf ep d severity r g b
  = let '(x0, x1, x2) := encoder_inputs powf ep d severity r g b in
    Ok (sRGB_from_linearRGB powf x0, sRGB_from_linearRGB powf x1,
        sRGB_from_linearRGB powf x2).
Proof.
  unfold entry_body, encoder_inputs, matrix_for.
  destruct (uses_brettel ep d) eqn:Hu.
  - rewrite brettel_params_enum. reflexivity.
  - rewrite vienot_table_enum. reflexivity.
Qed.

(** X4. No overflow and no NaN reaches the encoder: with an accurate
    [powf], bytes in 0..255 and a finite severity of magnitude below [2^E]
    ([1 <= E <= 116]), the three values an entry point hands to
    [sRGB_from_linearRGB] for a pixel are binary32 numbers of magnitude
    below [2^(E + 10)]. *)
Theorem values_stay_finite :
  forall powf ep d severity E r g b,
    powf_accurate powf -> 1 <= E <= 116 -> bounded_by E severity = true ->
    0 <= r < 256 -> 0 <= g < 256 -> 0 <= b < 256 ->
    exists x0 x1 x2,
      entry_body powf ep d severity r g b
      = Ok (sRGB_from_linearRGB powf x0, sRGB_from_linearRGB powf x1,
            sRGB_from_linearRGB powf x2)
      /\ encoder_inputs powf ep d severity r g b = (x0, x1, x2)
      /\ bounded_by (E + 10) x0 = true /\ bounded_by (E + 10) x1 = true
      /\ bounded_by (E + 10) x2 = true.
Proof.
  intros powf ep d severity E r g b Hp HE Hs Hr Hg Hb.
  pose proof (encoder_inputs_bounded powf Hp E HE severity Hs ep d r g b
                Hr Hg Hb) as H.
  rewrite entry_body_inputs.
  destruct (encoder_inputs powf ep d severity r g b) as [[x0 x1] x2].
  exists x0, x1, x2. split; [reflexivity|]. split; [reflexivity|]. exact H.
Qed.

Lemma values_stay_finite_witness :
  exists x0 x1 x2,
    entry_body Libm.powf_ref Entry_simulate DLDeficiency_Deutan c_0_5
      12 200 77
    = Ok (sRGB_from_linearRGB Libm.powf_ref x0,
          sRGB_from_linearRGB Libm.powf_ref x1,
          sRGB_from_linearRGB Libm.powf_ref x2)
    /\ encoder_inputs Libm.powf_ref Entry_simulate DLDeficiency_Deutan c_0_5
         12 200 77 = (x0, x1, x2)
    /\ bounded_by (1 + 10) x0 = true /\ bounded_by (1 + 10) x1 = true
    /\ bounded_by (1 + 10) x2 = true.
Proof.
  apply (values_stay_finite Libm.powf_ref Entry_simulate DLDeficiency_Deutan
           c_0_5 1 12 200 77); try lia.
  - intros x y _ _. right. right. left. reflexivity.
  - reflexivity.
Defined.

(** ** Where [powf] is called *)

Lemma guards_leave_positive (x : spec_float) :
  x <> S754_nan -> F32.leb x F32.zero = false -> F32.leb F32.one x = false ->
  positive_finite x = true.
Proof.
  destruct x as [[|] | [|] | | [|] m e]; intros Hn H0 H1;
    try reflexivity; try discriminate; congruence.
Qed.

Lemma encode_ext powf1 powf2 (x : spec_float) :
  (forall b y, positive_finite b = true -> powf1 b y = powf2 b y) ->
  x <> S754_nan ->
  sRGB_from_linearRGB powf1 x = sRGB_from_linearRGB powf2 x.
Proof.
  intros Hext Hn. unfold sRGB_from_linearRGB.
  destruct (F32.leb x F32.zero) eqn:H0; [reflexivity|].
  destruct (F32.leb F32.one x) eqn:H1; [reflexivity|].
  destruct (F32.ltb x c_0_0031308); [reflexivity|].
  rewrite Hext; [reflexivity|]. apply guards_leave_positive; assumption.
Qed.

Lemma decode_ext powf1 powf2 (v : Z) :
  (forall b y, positive_finite b = true -> powf1 b y = powf2 b y) ->
  0 <= v < 256 ->
  linearRGB_from_sRGB powf1 v = linearRGB_from_sRGB powf2 v.
Proof.
  intros Hext Hv. pose proof (byte_checked v Hv) as Hc.
  unfold byte_check in Hc. apply andb_true_iff in Hc. destruct Hc as [Hc _].
  unfold linearRGB_from_sRGB.
  destruct (F32.ltb (F32.div (F32.of_Z v) c_255) c_0_04045); [reflexivity|].
  cbn [orb] in Hc. apply Hext. exact Hc.
Qed.

Lemma bounded_not_nan E x : bounded_by E x = true -> x <> S754_nan.
Proof. intros H ->. discriminate H. Qed.

(** X5. The transforms call [powf] on positive finite bases only: two
    [powf] functions that agree on these bases (the first being accurate)
    give the same pixel, for every entry point, deficiency, bytes in 0..255
    and finite severity of magnitude below [2^116]. *)
Theorem powf_only_on_positive_bases :
  forall powf1 powf2 ep d severity E r g b,
    powf_accurate powf1 ->
    (forall x y, positive_finite x = true -> powf1 x y = powf2 x y) ->
    1 <= E <= 116 -> bounded_by E severity = true ->
    0 <= r < 256 -> 0 <= g < 256 -> 0 <= b < 256 ->
    entry_body powf1 ep d severity r g b = entry_body powf2 ep d severity r g b.
Proof.
  intros powf1 powf2 ep d severity E r g b Hp Hext HE Hs Hr Hg Hb.
  pose proof (encoder_inputs_bounded powf1 Hp E HE severity Hs ep d r g b
                Hr Hg Hb) as H.
  rewrite !entry_body_inputs.
  assert (Hin : encoder_inputs powf2 ep d severity r g b
                = encoder_inputs powf1 ep d severity r g b).
  { unfold encoder_inputs.
    rewrite !(decode_ext powf1 powf2) by assumption. reflexivity. }
  rewrite Hin.
  destruct (encoder_inputs powf1 ep d severity r g b) as [[x0 x1] x2].
  destruct H as (H0 & H1 & H2).
  rewrite (encode_ext powf1 powf2 x0), (encode_ext powf1 powf2 x1),
    (encode_ext powf1 powf2 x2);
    try assumption; try reflexivity;
    eapply bounded_not_nan; eassumption.
Qed.

Lemma powf_only_on_positive_bases_witness :
  entry_body Libm.powf_ref Entry_brettel1997 DLDeficiency_Tritan c_0_5
    12 200 77
  = entry_body
      (fun x y => if positive_finite x then Libm.powf_ref x y else S754_nan)
      Entry_brettel1997 DLDeficiency_Tritan c_0_5 12 200 77.
Proof.
  apply (powf_only_on_positive_bases Libm.powf_ref
           (fun x y =>
              if positive_finite x then Libm.powf_ref x y else S754_nan)
           Entry_brettel1997 DLDeficiency_Tritan c_0_5 1 12 200 77);
    try lia.
  - intros x y _ _. right. right. left. reflexivity.
  - intros x y H. rewrite H. reflexivity.
  - reflexivity.
Defined.

(** ** The walk on any buffer *)

Section Visits.
Variable body : Z -> Z -> Z -> result (Z * Z * Z).

Lemma walk_visits_any img width height bytesPerRow :
  sizes_fit width height bytesPerRow ->
  walk body img width height bytesPerRow
  = foldl (visit body) (Ok img)
      (pixel_offsets width height (stride_of width bytesPerRow)).
Proof.
  intros (Hw & Hh & Hb & Hw4 & Hfit). unfold walk, pixel_offsets.
  destruct (Z.eq_dec width 0) as [-> | Hw0].
  - rewrite rows_without_columns by reflexivity.
    generalize (seqZ 0 height). intros l. induction l as [|r l IH];
      [reflexivity|]. rewrite bind_cons. exact IH.
  - destruct (Z.eq_dec height 0) as [-> | Hh0]; [reflexivity|].
    specialize (Hfit ltac:(lia)).
    assert (Hs : (if bytesPerRow =? 0 then size_mul width 4 else bytesPerRow)
                 = stride_of width bytesPerRow).
    { unfold stride_of, size_mul. destruct (bytesPerRow =? 0); [|reflexivity].
      rewrite Z.mod_small by lia. lia. }
    rewrite Hs.
    assert (0 <= stride_of width bytesPerRow)
      by (unfold stride_of; destruct (bytesPerRow =? 0); lia).
    rewrite <- (Z2Nat.id height) at 2 by lia.
    apply rows_loop_visits; try lia.
Qed.

Lemma load_short img i :
  0 <= i -> Z.of_nat (length img) <= i -> load img i = Fault OutOfBounds.
Proof.
  intros H0 Hi. unfold load.
  rewrite (proj2 (lookup_ge_None img (Z.to_nat i))) by lia. reflexivity.
Qed.

Lemma load_cases img i :
  load img i = Ok (byte_at img i) \/ load img i = Fault OutOfBounds.
Proof.
  unfold load, byte_at. destruct (img !! Z.to_nat i); [left | right];
    reflexivity.
Qed.

Lemma pixel_step_short img p :
  0 <= p -> Z.of_nat (length img) < p + 3 ->
  pixel_step body img p = Fault OutOfBounds.
Proof.
  intros Hp Hlen. unfold pixel_step.
  destruct (load_cases img (p + 0)) as [-> | ->]; [|reflexivity].
  destruct (load_cases img (p + 1)) as [-> | ->]; [|reflexivity].
  rewrite (load_short img (p + 2)) by lia. reflexivity.
Qed.

Variable f : Z -> Z -> Z -> Z * Z * Z.
Hypothesis body_total : forall r g b, body r g b = Ok (f r g b).

Lemma visits_inside (l : list Z) : forall img,
  Forall (fun p => 0 <= p /\ p + 3 <= Z.of_nat (length img)) l ->
  exists img',
    foldl (visit body) (Ok img) l = Ok img' /\ length img' = length img.
Proof.
  induction l as [|p l IH]; intros img Hl.
  - exists img. split; reflexivity.
  - inversion Hl as [|p' l' [Hp Hin] Hl']; subst p' l'. clear Hl.
    rename Hl' into Hl.
    destruct (pixel_step_spec body f body_total img p Hp Hin)
      as (img1 & E & L & _).
    cbn [foldl]. unfold visit at 2. cbn [mbind result_bind]. rewrite E.
    destruct (IH img1) as (img' & E' & L').
    + rewrite L. exact Hl.
    + exists img'. split; [exact E' | congruence].
Qed.

Lemma visits_outside (l : list Z) : forall img,
  Forall (fun p => 0 <= p) l ->
  Exists (fun p => Z.of_nat (length img) < p + 3) l ->
  foldl (visit body) (Ok img) l = Fault OutOfBounds.
Proof.
  induction l as [|p l IH]; intros img Hl Hex.
  - inversion Hex.
  - inversion Hl as [|p' l' Hp Hl']; subst p' l'. clear Hl.
    rename Hl' into Hl.
    cbn [foldl]. unfold visit at 2. cbn [mbind result_bind].
    destruct (Z.lt_ge_cases (Z.of_nat (length img)) (p + 3)) as [Hs | Hin].
    + rewrite pixel_step_short by assumption. apply visit_fault.
    + destruct (pixel_step_spec body f body_total img p Hp Hin)
        as (img1 & E & L & _).
      rewrite E. apply IH; [exact Hl|].
      inversion Hex as [p' l' Hex' | p' l' Hex']; subst p' l'; [lia|].
      rewrite L. exact Hex'.
Qed.

Lemma walk_bounds img width height bytesPerRow :
  sizes_fit width height bytesPerRow -> 0 < width -> 0 < height ->
  (stride_of width bytesPerRow * (height - 1) + 4 * width - 1
   <= Z.of_nat (length img) ->
   exists img', walk body img width height bytesPerRow = Ok img'
                /\ length img' = length img)
  /\ (Z.of_nat (length img)
      < stride_of width bytesPerRow * (height - 1) + 4 * width - 1 ->
      walk body img width height bytesPerRow = Fault OutOfBounds).
Proof.
  intros Hfit Hw Hh. rewrite (walk_visits_any img width height bytesPerRow Hfit).
  destruct Hfit as (_ & _ & Hb & Hw4 & Hfit).
  set (s := stride_of width bytesPerRow) in *.
  assert (Hs : 0 <= s)
    by (unfold s, stride_of; destruct (bytesPerRow =? 0); lia).
  split; intros Hlen.
  - apply visits_inside. apply Forall_forall. intros p Hp.
    apply list_elem_of_In, elem_of_pixel_offsets in Hp.
    destruct Hp as (row & k & Hrow & Hk & ->). nia.
  - apply visits_outside.
    + apply Forall_forall. intros p Hp.
      apply list_elem_of_In, elem_of_pixel_offsets in Hp.
      destruct Hp as (row & k & Hrow & Hk & ->). nia.
    + apply Exists_exists. exists (s * (height - 1) + 4 * (width - 1)).
      split; [|lia]. apply list_elem_of_In, elem_of_pixel_offsets.
      exists (height - 1), (width - 1). lia.
Qed.
End Visits.

Lemma entry_body_total powf ep d severity r g b :
  entry_body powf ep d severity r g b = Ok (pixel_fun powf ep d severity r g b).
Proof.
  unfold entry_body. destruct (uses_brettel ep d) eqn:Hu.
  - apply brettel_body_total. exact Hu.
  - apply vienot_body_total. exact Hu.
Qed.

(** X6. How long the buffer has to be.  For an image with at least one
    pixel, a deficiency of the enumeration and sizes whose products do not
    wrap around, the call succeeds, leaving the length of the buffer
    unchanged, exactly when the buffer reaches the blue byte of the last
    pixel of the last row, [stride * (height - 1) + 4 * width - 1] bytes
    (the alpha byte of that pixel is not needed, and rows may overlap); on
    a buffer shorter than that a read falls outside of it. *)
Theorem buffer_just_long_enough :
  forall powf ep d severity img width height bytesPerRow,
    sizes_fit width height bytesPerRow -> 0 < width -> 0 < height ->
    (stride_of width bytesPerRow * (height - 1) + 4 * width - 1
     <= Z.of_nat (length img) ->
     exists img',
       run powf ep (enum_value d) severity img width height bytesPerRow
       = Ok img'
       /\ length img' = length img)
    /\ (Z.of_nat (length img)
        < stride_of width bytesPerRow * (height - 1) + 4 * width - 1 ->
        run powf ep (enum_value d) severity img width height bytesPerRow
        = Fault OutOfBounds).
Proof.
  intros powf ep d severity img width height bytesPerRow Hfit Hw Hh.
  rewrite run_entry_body.
  apply (walk_bounds (entry_body powf ep d severity)
           (pixel_fun powf ep d severity)
           (entry_body_total powf ep d severity)); assumption.
Qed.

Lemma buffer_just_long_enough_witness :
  (6 * (2 - 1) + 4 * 1 - 1 <= Z.of_nat (length [10; 20; 30; 40; 7; 7; 50; 60; 70]) ->
   exists img',
     run Libm.powf_ref Entry_vienot1999 (enum_value DLDeficiency_Protan)
       F32.one [10; 20; 30; 40; 7; 7; 50; 60; 70] 1 2 6 = Ok img'
     /\ length img' = length [10; 20; 30; 40; 7; 7; 50; 60; 70])
  /\ (Z.of_nat (length [10; 20; 30; 40; 7; 7; 50; 60; 70])
      < 6 * (2 - 1) + 4 * 1 - 1 ->
      run Libm.powf_ref Entry_vienot1999 (enum_value DLDeficiency_Protan)
        F32.one [10; 20; 30; 40; 7; 7; 50; 60; 70] 1 2 6
      = Fault OutOfBounds).
Proof.
  apply (buffer_just_long_enough Libm.powf_ref Entry_vienot1999
           DLDeficiency_Protan F32.one [10; 20; 30; 40; 7; 7; 50; 60; 70]
           1 2 6); [|lia|lia].
  unfold sizes_fit, stride_of, size_max. cbn [Z.eqb].
  repeat split; intros; lia.
Defined.

(** ** Rows after rows *)

Lemma pixel_offsets_app (width h1 h2 stride : Z) :
  0 <= h1 -> 0 <= h2 ->
  pixel_offsets width (h1 + h2) stride
  = pixel_offsets width h1 stride
    ++ (Z.add (stride * h1) <$> pixel_offsets width h2 stride).
Proof.
  intros H1 H2. unfold pixel_offsets.
  rewrite seqZ_app by lia. rewrite bind_app. f_equal.
  change (0 + h1) with h1. rewrite <- (Z.add_0_r h1) at 1.
  rewrite <- fmap_add_seqZ.
  generalize (seqZ 0 h2). intros l. induction l as [|r l IH]; [reflexivity|].
  rewrite fmap_cons, !bind_cons, fmap_app, IH. f_equal.
  rewrite <- list_fmap_compose. apply list_fmap_ext.
  intros _ k _. cbn. lia.
Qed.

Section Shift.
Variable body : Z -> Z -> Z -> result (Z * Z * Z).

Lemma load_drop (img : list Z) (k i : Z) :
  0 <= k -> 0 <= i ->
  load img (k + i) = load (drop (Z.to_nat k) img) i.
Proof.
  intros Hk Hi. unfold load. rewrite lookup_drop.
  rewrite Z2Nat.inj_add by lia. reflexivity.
Qed.

Lemma load_ok_length (img : list Z) (i v : Z) :
  0 <= i -> load img i = Ok v -> i < Z.of_nat (length img).
Proof.
  intros Hi. unfold load. destruct (img !! Z.to_nat i) eqn:E; [|discriminate].
  intros _. apply lookup_lt_Some in E. lia.
Qed.

Lemma store_app (pre l : list Z) (i v : Z) :
  0 <= i ->
  store (pre ++ l) (Z.of_nat (length pre) + i) v = pre ++ store l i v.
Proof.
  intros Hi. unfold store. rewrite Z2Nat.inj_add, Nat2Z.id by lia.
  apply insert_app_r.
Qed.

Lemma pixel_step_app (pre l : list Z) (p : Z) :
  0 <= p ->
  pixel_step body (pre ++ l) (Z.of_nat (length pre) + p)
  = with_prefix pre (pixel_step body l p).
Proof.
  intros Hp. unfold pixel_step, with_prefix.
  rewrite <- !(Z.add_assoc (Z.of_nat (length pre)) p).
  rewrite !(load_drop (pre ++ l)) by lia.
  rewrite Nat2Z.id, drop_app_length.
  destruct (load l (p + 0)) as [r|f]; [|reflexivity].
  destruct (load l (p + 1)) as [g|f]; [|reflexivity].
  destruct (load l (p + 2)) as [b|f]; [|reflexivity].
  cbn [mbind result_bind].
  destruct (body r g b) as [[[r' g'] b']|f]; [|reflexivity].
  cbn [mbind result_bind].
  rewrite !store_app by lia. reflexivity.
Qed.

Lemma pixel_step_nil (p : Z) : pixel_step body [] p = Fault OutOfBounds.
Proof. reflexivity. Qed.

Lemma visits_app (l : list Z) : forall pre img,
  Forall (fun p => 0 <= p) l ->
  foldl (visit body) (Ok (pre ++ img)) (Z.add (Z.of_nat (length pre)) <$> l)
  = with_prefix pre (foldl (visit body) (Ok img) l).
Proof.
  induction l as [|p l IH]; intros pre img Hl; [reflexivity|].
  inversion Hl as [|p' l' Hp Hl']; subst p' l'.
  rewrite fmap_cons. cbn [foldl]. unfold visit at 2 4.
  cbn [mbind result_bind]. rewrite pixel_step_app by exact Hp.
  destruct (pixel_step body img p) as [img1|f]; cbn [with_prefix mbind result_bind].
  - apply IH. exact Hl'.
  - rewrite !visit_fault. reflexivity.
Qed.

Lemma visits_shift (l : list Z) (k : Z) (img : list Z) :
  0 <= k -> Forall (fun p => 0 <= p) l ->
  foldl (visit body) (Ok img) (Z.add k <$> l)
  = with_prefix (take (Z.to_nat k) img)
      (foldl (visit body) (Ok (drop (Z.to_nat k) img)) l).
Proof.
  intros Hk Hl.
  destruct (Z.le_gt_cases k (Z.of_nat (length img))) as [Hin | Hout].
  - pose proof (visits_app l (take (Z.to_nat k) img)
                  (drop (Z.to_nat k) img) Hl) as H.
    rewrite take_drop, length_take_le, Z2Nat.id in H by lia. exact H.
  - rewrite drop_ge, take_ge by lia.
    destruct l as [|p l]; [cbn; rewrite app_nil_r; reflexivity|].
    inversion Hl as [|p' l' Hp Hl']; subst p' l'.
    rewrite fmap_cons. cbn [foldl]. unfold visit at 2 4.
    cbn [mbind result_bind]. rewrite pixel_step_nil.
    rewrite pixel_step_short by lia. rewrite !visit_fault. reflexivity.
Qed.

Lemma walk_rows_compose img width h1 h2 bytesPerRow :
  sizes_fit width (h1 + h2) bytesPerRow -> 0 <= h1 -> 0 <= h2 ->
  walk body img width (h1 + h2) bytesPerRow
  = img1 ← walk body img width h1 bytesPerRow;
    from_row h1 width bytesPerRow
      (fun rest => walk body rest width h2 bytesPerRow) img1.
Proof.
  intros Hfit H1 H2.
  assert (Hs : 0 <= stride_of width bytesPerRow).
  { destruct Hfit as (? & ? & ? & ? & ?).
    unfold stride_of; destruct (bytesPerRow =? 0); lia. }
  assert (Hfit1 : sizes_fit width h1 bytesPerRow).
  { destruct Hfit as (? & ? & ? & ? & Hf).
    repeat split; try lia; intros Hh; specialize (Hf ltac:(lia)); nia. }
  assert (Hfit2 : sizes_fit width h2 bytesPerRow).
  { destruct Hfit as (? & ? & ? & ? & Hf).
    repeat split; try lia; intros Hh; specialize (Hf ltac:(lia)); nia. }
  rewrite (walk_visits_any body img width (h1 + h2)) by exact Hfit.
  rewrite (walk_visits_any body img width h1) by exact Hfit1.
  rewrite pixel_offsets_app, foldl_app by lia.
  destruct (foldl (visit body) (Ok img) _) as [img1|f];
    cbn [mbind result_bind].
  - unfold from_row. cbv zeta.
    rewrite (walk_visits_any body _ width h2) by exact Hfit2.
    apply visits_shift; [nia|].
    apply Forall_forall. intros p Hp.
    apply list_elem_of_In, elem_of_pixel_offsets in Hp.
    destruct Hp as (row & k & Hrow & Hk & ->). nia.
  - apply visit_fault.
Qed.
End Shift.

Lemma run_is_walk powf ep deficiency severity :
  exists body, forall img width height bytesPerRow,
    run powf ep deficiency severity img width height bytesPerRow
    = walk body img width height bytesPerRow.
Proof.
  destruct ep; cbn [run]; unfold dl_simulate_cvd,
    dl_simulate_cvd_brettel1997, dl_simulate_cvd_vienot1999;
    try destruct (deficiency =? enum_value DLDeficiency_Tritan);
    eexists; intros; reflexivity.
Qed.

(** X7. Rows can be processed in two calls: for every entry point,
    deficiency (of the enumeration or not), severity and buffer, a call on
    [h1 + h2] rows is the call on the first [h1] rows followed by the call
    on [h2] rows with the buffer pointer moved by [h1] strides; outcomes
    are equal, faults included. *)
Theorem rows_can_be_split :
  forall powf ep deficiency severity img width h1 h2 bytesPerRow,
    sizes_fit width (h1 + h2) bytesPerRow -> 0 <= h1 -> 0 <= h2 ->
    run powf ep deficiency severity img width (h1 + h2) bytesPerRow
    = img1 ← run powf ep deficiency severity img width h1 bytesPerRow;
      from_row h1 width bytesPerRow
        (fun rest =>
           run powf ep deficiency severity rest width h2 bytesPerRow)
        img1.
Proof.
  intros powf ep deficiency severity img width h1 h2 bytesPerRow Hfit H1 H2.
  destruct (run_is_walk powf ep deficiency severity) as (body & Hrun).
  rewrite !Hrun.
  rewrite (walk_rows_compose body img width h1 h2 bytesPerRow Hfit H1 H2).
  destruct (walk body img width h1 bytesPerRow) as [img1|f];
    cbn [mbind result_bind]; [|reflexivity].
  unfold from_row. rewrite Hrun. reflexivity.
Qed.

Lemma rows_can_be_split_witness :
  run Libm.powf_ref Entry_simulate 0 F32.one
    [200; 30; 40; 255; 7; 7; 10; 200; 30; 77] 1 (1 + 1) 6
  = img1 ← run Libm.powf_ref Entry_simulate 0 F32.one
             [200; 30; 40; 255; 7; 7; 10; 200; 30; 77] 1 1 6;
    from_row 1 1 6
      (fun rest => run Libm.powf_ref Entry_simulate 0 F32.one rest 1 1 6)
      img1.
Proof.
  apply (rows_can_be_split Libm.powf_ref Entry_simulate 0 F32.one
           [200; 30; 40; 255; 7; 7; 10; 200; 30; 77] 1 1 1 6); [|lia|lia].
  unfold sizes_fit, stride_of, size_max. cbn [Z.eqb].
  repeat split; intros; lia.
Defined.

(** ** The other states of the file walk the buffer the same way *)

Lemma total_of_ok (body : Z -> Z -> Z -> result (Z * Z * Z)) :
  (forall r g b, exists px, body r g b = Ok px) ->
  exists f, forall r g b, body r g b = Ok (f r g b).
Proof.
  intros H.
  exists (fun r g b =>
            match body r g b with Ok px => px | Fault _ => (0, 0, 0) end).
  intros r g b. destruct (H r g b) as [px ->]. reflexivity.
Qed.

Lemma other_entry_is_walk powf entry (d : DLDeficiency) severity :
  In entry (other_entry_points powf) ->
  exists body,
    (forall r g b, exists px, body r g b = Ok px)
    /\ forall img width height bytesPerRow,
         entry (enum_value d) severity img width height bytesPerRow
         = walk body img width height bytesPerRow.
Proof.
  intros Hin. unfold other_entry_points in Hin.
  destruct Hin as [<- | [<- | [<- | [<- | [<- | []]]]]]; destruct d;
    (eexists; split; [|intros; reflexivity]);
    intros r g b; eexists; reflexivity.
Qed.

(** X8. The entry points of the two other states of the file (the
    combined-matrix Brettel transform with the other tables, the explicit
    LMS Brettel transform, their Vienot transform and their dispatchers)
    walk the buffer as [libDaltonLens.c] does: on a well-formed call each
    one replaces the three colour bytes of every pixel by one and the same
    function of their former values and leaves every other byte, the alpha
    bytes and the row padding, unchanged. *)
Theorem other_states_same_walk :
  forall powf entry d severity,
    In entry (other_entry_points powf) ->
    exists f,
      forall img width height bytesPerRow,
        geometry_ok img width height bytesPerRow ->
        exists img',
          entry (enum_value d) severity img width height bytesPerRow = Ok img'
          /\ walked f img width height (stride_of width bytesPerRow) img'.
Proof.
  intros powf entry d severity Hin.
  destruct (other_entry_is_walk powf entry d severity Hin)
    as (body & Hok & Hwalk).
  destruct (total_of_ok body Hok) as (f & Hf).
  exists f. intros img width height bytesPerRow Hgeo. rewrite Hwalk.
  apply (walk_spec body f Hf). exact Hgeo.
Qed.

Lemma other_states_same_walk_witness :
  exists f,
    forall img width height bytesPerRow,
      geometry_ok img width height bytesPerRow ->
      exists img',
        ExplicitLMS.dl_simulate_cvd_brettel1997 Libm.powf_ref
          (enum_value DLDeficiency_Tritan) F32.one img width height
          bytesPerRow = Ok img'
        /\ walked f img width height (stride_of width bytesPerRow) img'.
Proof.
  apply (other_states_same_walk Libm.powf_ref
           (ExplicitLMS.dl_simulate_cvd_brettel1997 Libm.powf_ref)
           DLDeficiency_Tritan F32.one).
  right. left. reflexivity.
Defined.

(** ** The image comparison of the test program *)

Section Compare.
Import TestSimulation.
Variables a b : list Z.

Lemma read_inside (img : list Z) (i : Z) :
  0 <= i < Z.of_nat (length img) -> read img i = Returns (byte_at img i).
Proof.
  intros Hi. unfold read, byte_at.
  destruct (Z.ltb_spec i 0) as [|_]; [lia|].
  destruct (img !! Z.to_nat i) eqn:E; [reflexivity|].
  apply lookup_ge_None in E. lia.
Qed.

Lemma compare_row_spec (n : nat) : forall c off,
  0 <= off + c ->
  off + c + Z.of_nat n <= Z.of_nat (length a) ->
  off + c + Z.of_nat n <= Z.of_nat (length b) ->
  compare_row n c off off a b
  = Returns (negb (forallb (close_at a b) (seqZ (off + c) (Z.of_nat n)))).
Proof.
  induction n as [|n IH]; intros c off H0 Ha Hb; [reflexivity|].
  rewrite seqZ_cons by lia.
  replace (Z.pred (Z.of_nat (S n))) with (Z.of_nat n) by lia.
  cbn [compare_row forallb].
  rewrite !read_inside by lia. cbn [mbind outcome_bind].
  unfold close_at at 1.
  destruct (Z.ltb_spec 1 (Z.abs (byte_at a (off + c) - byte_at b (off + c))))
    as [Hd | Hd].
  - rewrite (proj2 (Z.leb_gt _ _)) by lia. reflexivity.
  - rewrite (proj2 (Z.leb_le _ _)) by lia. cbn [andb].
    rewrite IH by lia.
    replace (off + (c + 1)) with (Z.succ (off + c)) by lia. reflexivity.
Qed.

Lemma int_mul_small (x y : Z) :
  0 <= x * y <= int_max -> int_mul x y = Returns (x * y).
Proof.
  intros H. unfold int_mul, int_min. cbv zeta.
  rewrite (proj2 (Z.leb_le _ (x * y))) by lia.
  rewrite (proj2 (Z.leb_le (x * y) _)) by lia. reflexivity.
Qed.

Lemma compare_rows_spec (width : Z) (n : nat) : forall r,
  0 < width -> 0 <= r -> 4 * width * (r + Z.of_nat n) <= int_max ->
  width * (r + Z.of_nat n + 3) <= Z.of_nat (length a) ->
  width * (r + Z.of_nat n + 3) <= Z.of_nat (length b) ->
  compare_rows n r width a b
  = Returns (if forallb (fun row => forallb (close_at a b)
                                      (seqZ (width * row) (4 * width)))
                  (seqZ r (Z.of_nat n))
             then 0 else 2).
Proof.
  induction n as [|n IH]; intros r Hw Hr Hmax Ha Hb; [reflexivity|].
  rewrite (seqZ_cons r) by lia.
  replace (Z.pred (Z.of_nat (S n))) with (Z.of_nat n) by lia.
  cbn [compare_rows forallb].
  rewrite !int_mul_small by (unfold int_max in *; nia).
  cbn [mbind outcome_bind].
  rewrite compare_row_spec by nia. cbn [mbind outcome_bind].
  rewrite Z.add_0_r, Z2Nat.id by lia.
  replace (width * 4) with (4 * width) by lia.
  destruct (forallb (close_at a b) (seqZ (width * r) (4 * width)));
    cbn [negb andb]; [|reflexivity].
  apply IH; lia.
Qed.

Lemma rows_cover (width height : Z) :
  0 < width -> 0 < height ->
  forallb (fun row => forallb (close_at a b)
                        (seqZ (width * row) (4 * width)))
    (seqZ 0 height)
  = close_upto a b (width * (height + 3)).
Proof.
  intros Hw Hh. unfold close_upto. apply eq_true_iff_eq.
  rewrite !forallb_forall. split.
  - intros H i Hi. apply list_elem_of_In, elem_of_seqZ in Hi.
    set (row := Z.min (i / width) (height - 1)).
    pose proof (Z.div_pos i width ltac:(lia) Hw).
    pose proof (Z.mul_div_le i width Hw).
    pose proof (Z.mul_succ_div_gt i width Hw).
    specialize (H row ltac:(apply list_elem_of_In, elem_of_seqZ; lia)).
    rewrite forallb_forall in H. apply H.
    apply list_elem_of_In, elem_of_seqZ. unfold row. nia.
  - intros H row Hrow. apply list_elem_of_In, elem_of_seqZ in Hrow.
    apply forallb_forall. intros i Hi.
    apply list_elem_of_In, elem_of_seqZ in Hi. apply H.
    apply list_elem_of_In, elem_of_seqZ. nia.
Qed.
End Compare.

(** X9. [compare_images] of the test program advances its row pointers
    by [width] bytes per row, not by [width * 4].  On two images of
    [width] x [height] pixels it therefore returns 0 exactly when the first
    [width * (height + 3)] bytes of the two buffers differ by 1 at most,
    and 2 otherwise: the bytes from [width * (height + 3)] on, that is most
    of the image when [height > 1], are never compared. *)
Theorem compare_images_partial :
  forall gt inputImage width height,
    TestSimulation.loaded_width gt = width ->
    TestSimulation.loaded_height gt = height ->
    0 < width -> 0 < height ->
    4 * width * height <= TestSimulation.int_max ->
    Z.of_nat (length inputImage) = 4 * width * height ->
    Z.of_nat (length (TestSimulation.pixels gt)) = 4 * width * height ->
    TestSimulation.compare_images gt inputImage width height
    = TestSimulation.Returns
        (if close_upto inputImage (TestSimulation.pixels gt)
              (width * (height + 3))
         then 0 else 2).
Proof.
  intros gt inputImage width height Hgw Hgh Hw Hh Hmax Ha Hb.
  unfold TestSimulation.compare_images.
  rewrite Hgw, Hgh, !Z.eqb_refl. cbn [negb orb].
  rewrite compare_rows_spec; rewrite ?Z2Nat.id by lia; try nia.
  rewrite rows_cover by lia. reflexivity.
Qed.

Lemma compare_images_partial_witness :
  TestSimulation.compare_images
    {| TestSimulation.pixels := [1; 2; 3; 255; 4; 5; 6; 255];
       TestSimulation.loaded_width := 1;
       TestSimulation.loaded_height := 2 |}
    [1; 2; 3; 255; 4; 200; 200; 255] 1 2
  = TestSimulation.Returns
      (if close_upto [1; 2; 3; 255; 4; 200; 200; 255]
            [1; 2; 3; 255; 4; 5; 6; 255] (1 * (2 + 3))
       then 0 else 2).
Proof.
  apply (compare_images_partial
           {| TestSimulation.pixels := [1; 2; 3; 255; 4; 5; 6; 255];
              TestSimulation.loaded_width := 1;
              TestSimulation.loaded_height := 2 |}
           [1; 2; 3; 255; 4; 200; 200; 255] 1 2);
    first [reflexivity | lia | (unfold TestSimulation.int_max; lia)].
Defined.

(** ** The three tests *)

Section WalkLength.
Variable body : Z -> Z -> Z -> result (Z * Z * Z).

Lemma pixel_step_length img p img' :
  pixel_step body img p = Ok img' -> length img' = length img.
Proof.
  unfold pixel_step.
  destruct (load img (p + 0)); [|discriminate].
  destruct (load img (p + 1)); [|discriminate].
  destruct (load img (p + 2)); [|discriminate].
  cbn [mbind result_bind].
  destruct (body _ _ _) as [[[r' g'] b']|]; [|discriminate].
  cbn [mbind result_bind]. intros [= <-]. rewrite !length_store.
  reflexivity.
Qed.

Lemma cols_loop_length n : forall rowPtr col img img',
  cols_loop body n rowPtr col img = Ok img' -> length img' = length img.
Proof.
  induction n as [|n IH]; intros rowPtr col img img'; cbn [cols_loop].
  - intros [= <-]. reflexivity.
  - destruct (pixel_step body img (rowPtr + col)) as [img1|] eqn:E;
      [|discriminate].
    cbn [mbind result_bind]. intros H. apply IH in H.
    apply pixel_step_length in E. congruence.
Qed.

Lemma rows_loop_length n : forall row width4 bytesPerRow img img',
  rows_loop body n row width4 bytesPerRow img = Ok img' ->
  length img' = length img.
Proof.
  induction n as [|n IH]; intros row width4 bytesPerRow img img';
    cbn [rows_loop].
  - intros [= <-]. reflexivity.
  - destruct (cols_loop body _ _ _ img) as [img1|] eqn:E; [|discriminate].
    cbn [mbind result_bind]. intros H. apply IH in H.
    apply cols_loop_length in E. congruence.
Qed.

Lemma walk_length img width height bytesPerRow img' :
  walk body img width height bytesPerRow = Ok img' ->
  length img' = length img.
Proof. apply rows_loop_length. Qed.
End WalkLength.

Section TestBlocks.
Import TestSimulation.
Variable stbi_load : ground_truth -> loaded.
Variable context : Context.
Variable n : Z.
Hypothesis n_int : int_mul (width context) (height context)
                   ≫= (fun wh => int_mul wh 4) = Returns n.

Lemma compare_rows_code k : forall r w a b c,
  compare_rows k r w a b = Returns c -> 0 <= c <= 2.
Proof.
  induction k as [|k IH]; intros r w a b c; cbn [compare_rows].
  - intros [= <-]. lia.
  - destruct (int_mul w r); [|discriminate]. cbn [mbind outcome_bind].
    destruct (int_mul w 4); [|discriminate]. cbn [mbind outcome_bind].
    destruct (compare_row _ _ _ _ _ _) as [[|]|]; cbn [mbind outcome_bind];
      [intros [= <-]; lia | apply IH | discriminate].
Qed.

Lemma compare_images_code gt a w h c :
  compare_images gt a w h = Returns c -> 0 <= c <= 2.
Proof.
  unfold compare_images. destruct (_ || _).
  - intros [= <-]. lia.
  - apply compare_rows_code.
Qed.

Lemma memcpy_full dst src :
  Z.of_nat (length dst) = n ->
  memcpy dst src n
  = if n <=? Z.of_nat (length src)
    then Returns (take (Z.to_nat n) src) else Undefined.
Proof.
  intros Hd. unfold memcpy.
  rewrite (proj2 (Z.leb_le 0 n)) by lia.
  rewrite (proj2 (Z.leb_le n (Z.of_nat (length dst)))) by lia.
  cbn [andb]. rewrite drop_ge, app_nil_r by lia. reflexivity.
Qed.

Variable simulate : Z -> spec_float -> list Z -> Z -> Z -> Z
                    -> result (list Z).
Hypothesis simulate_length :
  forall deficiency severity img w h bytesPerRow img',
    simulate deficiency severity img w h bytesPerRow = Ok img' ->
    length img' = length img.

(** A block does not depend on what the scratch buffer held. *)
Lemma block_any_tmp d severity gt_name cum tmp tmp' :
  Z.of_nat (length tmp) = n -> Z.of_nat (length tmp') = n ->
  simulate_and_compare stbi_load simulate d severity gt_name context
    (cum, tmp)
  = '(c, t) ← simulate_and_compare stbi_load simulate d severity gt_name
                context (0, tmp');
    Returns (cum + c, t).
Proof.
  intros H1 H2. unfold simulate_and_compare.
  destruct (int_mul (width context) (height context)) as [wh|];
    [|discriminate n_int].
  cbn [mbind outcome_bind] in *. rewrite n_int. cbn [mbind outcome_bind].
  rewrite !memcpy_full by assumption.
  destruct (n <=? _); [|reflexivity]. cbn [mbind outcome_bind].
  destruct (simulate _ _ _ _ _ _); [|reflexivity].
  cbn [of_result mbind outcome_bind].
  destruct (compare_images _ _ _ _); reflexivity.
Qed.

Lemma block_returns d severity gt_name cum tmp c t :
  Z.of_nat (length tmp) = n ->
  simulate_and_compare stbi_load simulate d severity gt_name context
    (cum, tmp) = Returns (c, t) ->
  Z.of_nat (length t) = n /\ cum <= c <= cum + 2.
Proof.
  intros H1. unfold simulate_and_compare.
  destruct (int_mul (width context) (height context)) as [wh|];
    [|discriminate n_int].
  cbn [mbind outcome_bind] in *. rewrite n_int. cbn [mbind outcome_bind].
  rewrite memcpy_full by assumption.
  destruct (Z.leb_spec n (Z.of_nat (length (inputBuffer context))));
    [|discriminate].
  cbn [mbind outcome_bind].
  destruct (simulate _ _ _ _ _ _) as [img'|] eqn:E; [|discriminate].
  cbn [of_result mbind outcome_bind].
  destruct (compare_images _ _ _ _) as [c'|] eqn:Ec; [|discriminate].
  cbn [mbind outcome_bind]. intros [= <- <-].
  apply simulate_length in E. apply compare_images_code in Ec.
  rewrite E, length_take_le by lia. lia.
Qed.
End TestBlocks.

Lemma entry_points_keep_length powf ep deficiency severity img w h
    bytesPerRow img' :
  run powf ep deficiency severity img w h bytesPerRow = Ok img' ->
  length img' = length img.
Proof.
  destruct (run_is_walk powf ep deficiency severity) as (body & Hrun).
  rewrite Hrun. apply walk_length.
Qed.

Section DispatchTest.
Import TestSimulation.
Variable stbi_load : ground_truth -> loaded.
Variable powf : spec_float -> spec_float -> spec_float.
Variables (input : list Z) (w h : Z).
Variable tmpA : list Z.
Hypothesis tmpA_size : Z.of_nat (length tmpA) = w * h * 4.
Hypothesis size_int :
  int_mul w h ≫= (fun wh => int_mul wh 4) = Returns (w * h * 4).

Lemma block_core ep d severity gt_name tmp0 cum tmp :
  Z.of_nat (length tmp) = w * h * 4 ->
  simulate_and_compare stbi_load (run powf ep) d severity gt_name
    (test_context input w h tmp0) (cum, tmp)
  = '(c, t) ← fresh_block stbi_load input w h tmpA (run powf ep) d
                severity gt_name;
    Returns (cum + c, t).
Proof.
  intros Hlen.
  exact (block_any_tmp stbi_load (test_context input w h tmpA) (w * h * 4)
           size_int (run powf ep) d severity gt_name cum tmp tmpA Hlen
           tmpA_size).
Qed.

Lemma core_returns ep d severity gt_name c t :
  fresh_block stbi_load input w h tmpA (run powf ep) d severity gt_name
  = Returns (c, t) ->
  Z.of_nat (length t) = w * h * 4 /\ 0 <= c <= 2.
Proof.
  intros E.
  destruct (block_returns stbi_load (test_context input w h tmpA)
              (w * h * 4) size_int
              (run powf ep) (entry_points_keep_length powf ep)
              d severity gt_name 0 tmpA c t tmpA_size E) as [L B].
  split; [exact L | lia].
Qed.

Lemma core_dispatch (d : DLDeficiency) severity gt_name :
  fresh_block stbi_load input w h tmpA (run powf Entry_simulate) d severity
    gt_name
  = fresh_block stbi_load input w h tmpA
      (run powf (if uses_brettel Entry_simulate d
                 then Entry_brettel1997 else Entry_vienot1999))
      d severity gt_name.
Proof. destruct d; reflexivity. Qed.

Ltac next_block H c t E L B :=
  rewrite block_core in H by assumption;
  match type of H with
  | context [fresh_block _ _ _ _ _ ?sim ?d ?s ?g] =>
      destruct (fresh_block stbi_load input w h tmpA sim d s g)
        as [[c t]|] eqn:E;
      [|discriminate H];
      cbn [mbind outcome_bind] in H;
      destruct (core_returns _ d s g c t E) as [L B]
  end.

Lemma dispatch_blocks tmpV tmpB :
  Z.of_nat (length tmpV) = w * h * 4 ->
  Z.of_nat (length tmpB) = w * h * 4 ->
  returned_code
    (test_Vienot1999 stbi_load powf (test_context input w h tmpV))
  = Some 0 ->
  returned_code
    (test_Brettel1997 stbi_load powf (test_context input w h tmpB))
  = Some 0 ->
  returned_code
    (test_automaticDispatch stbi_load powf (test_context input w h tmpA))
  = Some 0.
Proof.
  intros LV LB HV HB.
  unfold test_Vienot1999, test_Brettel1997, test_automaticDispatch in *.
  cbv zeta in *. cbn [tmpImageBuffer test_context] in *.
  change (dl_simulate_cvd_vienot1999 powf)
    with (run powf Entry_vienot1999) in *.
  change (dl_simulate_cvd_brettel1997 powf)
    with (run powf Entry_brettel1997) in *.
  change (dl_simulate_cvd powf) with (run powf Entry_simulate).
  next_block HV v1 t1 Ev1 Lv1 Bv1. next_block HV v2 t2 Ev2 Lv2 Bv2.
  next_block HV v3 t3 Ev3 Lv3 Bv3. next_block HV v4 t4 Ev4 Lv4 Bv4.
  next_block HV v5 t5 Ev5 Lv5 Bv5. next_block HV v6 t6 Ev6 Lv6 Bv6.
  next_block HB b1 u1 Eb1 Lb1 Bb1. next_block HB b2 u2 Eb2 Lb2 Bb2.
  next_block HB b3 u3 Eb3 Lb3 Bb3. next_block HB b4 u4 Eb4 Lb4 Bb4.
  next_block HB b5 u5 Eb5 Lb5 Bb5. next_block HB b6 u6 Eb6 Lb6 Bb6.
  cbn [returned_code] in HV, HB.
  injection HV as HV. injection HB as HB.
  assert (v1 = 0) as -> by lia. assert (v2 = 0) as -> by lia.
  assert (b3 = 0) as -> by lia.
  rewrite block_core by assumption.
  rewrite (core_dispatch DLDeficiency_Protan). cbn [uses_brettel].
  rewrite Ev1. cbn [mbind outcome_bind].
  rewrite block_core by assumption.
  rewrite (core_dispatch DLDeficiency_Deutan). cbn [uses_brettel].
  rewrite Ev2. cbn [mbind outcome_bind].
  rewrite block_core by assumption.
  rewrite (core_dispatch DLDeficiency_Tritan). cbn [uses_brettel].
  rewrite Eb3. cbn [mbind outcome_bind]. reflexivity.
Qed.
End DispatchTest.

Lemma block_needs_size stbi_load simulate d severity gt_name context state r :
  TestSimulation.simulate_and_compare stbi_load simulate d severity gt_name
    context state = TestSimulation.Returns r ->
  TestSimulation.int_mul (TestSimulation.width context)
    (TestSimulation.height context)
  ≫= (fun wh => TestSimulation.int_mul wh 4)
  = TestSimulation.Returns
      (TestSimulation.width context * TestSimulation.height context * 4).
Proof.
  unfold TestSimulation.simulate_and_compare. destruct state as [cum tmp].
  unfold TestSimulation.int_mul. cbv zeta.
  destruct (_ && _); [|discriminate].
  cbn [mbind TestSimulation.outcome_bind].
  destruct (_ && _); [reflexivity | discriminate].
Qed.

(** X10. [test_automaticDispatch] passes whenever [test_Vienot1999] and
    [test_Brettel1997] do: its three blocks make, through the dispatcher,
    the same simulations and comparisons as the Protan and Deutan blocks at
    severity 1.0 of the former and the Tritan block at severity 1.0 of the
    latter, and a block does not depend on what the scratch buffer held
    before. *)
Theorem dispatch_test_follows :
  forall stbi_load powf input w h tmpV tmpB tmpA,
    Z.of_nat (length tmpV) = w * h * 4 ->
    Z.of_nat (length tmpB) = w * h * 4 ->
    Z.of_nat (length tmpA) = w * h * 4 ->
    returned_code
      (TestSimulation.test_Vienot1999 stbi_load powf
         (test_context input w h tmpV)) = Some 0 ->
    returned_code
      (TestSimulation.test_Brettel1997 stbi_load powf
         (test_context input w h tmpB)) = Some 0 ->
    returned_code
      (TestSimulation.test_automaticDispatch stbi_load powf
         (test_context input w h tmpA)) = Some 0.
Proof.
  intros stbi_load powf input w h tmpV tmpB tmpA LV LB LA HV HB.
  apply (dispatch_blocks stbi_load powf input w h tmpA LA) with tmpV tmpB;
    try assumption.
  unfold TestSimulation.test_Vienot1999 in HV. cbv zeta in HV.
  destruct (TestSimulation.simulate_and_compare _ _ _ _ _ _ (0, _))
    as [r|] eqn:E; [|discriminate HV].
  apply block_needs_size in E. exact E.
Qed.

Lemma dispatch_test_follows_witness :
  returned_code
    (TestSimulation.test_automaticDispatch sample_ground_truth Libm.powf_ref
       (test_context sample_input 1 1 [0; 0; 0; 0])) = Some 0.
Proof.
  apply (dispatch_test_follows sample_ground_truth Libm.powf_ref sample_input
           1 1 [0; 0; 0; 0] [0; 0; 0; 0] [0; 0; 0; 0]).
  - reflexivity.
  - reflexivity.
  - reflexivity.
  - vm_compute. reflexivity.
  - vm_compute. reflexivity.
Defined.

